(** * fal-minimax-image-01 MCP server: a shallow embedding of [src/index.ts]

    The server registers four tools ([minimax_generate],
    [minimax_generate_queue], [minimax_queue_status], [minimax_queue_result]).
    Each handler checks the start-up credential flag, calls the fal.ai
    gateway inside a [try]/[catch], and, for the two result-bearing tools,
    downloads every returned image with [downloadImage] and formats a text
    report.

    Modelling conventions.
    - JavaScript strings are sequences of code units below 256 (Latin-1),
      embedded as [string]; on that domain [toLowerCase] and the regular
      expression class [\s] are embedded exactly. Code units from 256 on
      are outside the model: among them JavaScript lowercases U+212A to
      [k] and U+0130 to [i] followed by U+0307, and counts a few more
      characters as whitespace; nothing proved below speaks about
      prompts that hold them.
    - JavaScript numbers that the code prints are integers, embedded as [Z]
      and printed in decimal.
    - A tool's [args] is whatever object the handler receives as its
      first argument, taken to be flat, with properties that hold
      primitive values: a [gmap string jsval]; a missing key reads as
      [undefined]. The input schemas are data handed to [server.tool];
      the program never evaluates them.
    - Effects (file system, clock, outbound calls) are threaded through a
      state-and-exception monad [M]; the outside world (gateway answers,
      HTTP behaviour, clock readings) is a record of oracles, [World].
      A gateway call is taken to settle: it resolves or rejects. A
      download may also fail to settle: an ['error'] event emitted while
      nobody listens is an uncaught exception, and a response that ends
      early fires no listener at all. Output on the diagnostic stream
      ([console.error]) is not part of the model. *)

From Stdlib Require Import ZArith NArith String Ascii List Lia Bool.
From stdpp Require Import gmap strings list fin_maps pretty.

Open Scope string_scope.

(** ** Code units and character classes *)

Module Chars.

Definition code (c : ascii) : N := N_of_ascii c.

Definition in_range (lo hi : N) (c : ascii) : bool :=
  ((lo <=? code c) && (code c <=? hi))%N.

(** [[a-z]] *)
Definition is_lower_az (c : ascii) : bool := in_range 97 122 c.

(** [[A-Z]] *)
Definition is_upper_az (c : ascii) : bool := in_range 65 90 c.

(** [[0-9]] *)
Definition is_digit (c : ascii) : bool := in_range 48 57 c.

(** [\s] restricted to code units below 256: TAB, LF, VT, FF, CR, SPACE
    and NO-BREAK SPACE. *)
Definition is_space (c : ascii) : bool :=
  in_range 9 13 c || (code c =? 32)%N || (code c =? 160)%N.

(** The code units with a lowercase mapping below 256: [A-Z] and
    U+00C0..U+00DE except the multiplication sign U+00D7. *)
Definition has_lowercase (c : ascii) : bool :=
  is_upper_az c || (in_range 192 222 c && negb (code c =? 215)%N).

Definition to_lower_char (c : ascii) : ascii :=
  if has_lowercase c then ascii_of_N (code c + 32) else c.

Definition underscore : ascii := ascii_of_N 95.

Definition is_underscore (c : ascii) : bool := (code c =? 95)%N.

(** [[^a-z0-9\s]] *)
Definition not_alnum_space (c : ascii) : bool :=
  negb (is_lower_az c || is_digit c || is_space c).

(** [[:.]] *)
Definition is_colon_or_dot (c : ascii) : bool :=
  (code c =? 58)%N || (code c =? 46)%N.

(** The characters a sanitized prompt is made of: [[a-z0-9_]]. *)
Definition is_safe (c : ascii) : bool :=
  is_lower_az c || is_digit c || is_underscore c.

End Chars.

(** ** String primitives of the JavaScript runtime *)

Module JsString.
Import Chars.

(** [s.toLowerCase()] on code units below 256. *)
Fixpoint toLowerCase (s : string) : string :=
  match s with
  | EmptyString => EmptyString
  | String c s' => String (to_lower_char c) (toLowerCase s')
  end.

(** [s.replace(/[cls]/g, repl)]: every character of the class is replaced. *)
Fixpoint replace_each (cls : ascii -> bool) (repl : string) (s : string) : string :=
  match s with
  | EmptyString => EmptyString
  | String c s' =>
      if cls c then repl +:+ replace_each cls repl s'
      else String c (replace_each cls repl s')
  end.

(** [s.replace(/[cls]+/g, repl)]: every maximal run of characters of the
    class is replaced by one [repl]; [in_run] tells that the previous
    character belonged to a run already replaced. *)
Fixpoint replace_runs (cls : ascii -> bool) (repl : string) (in_run : bool)
    (s : string) : string :=
  match s with
  | EmptyString => EmptyString
  | String c s' =>
      if cls c then
        if in_run then replace_runs cls repl true s'
        else repl +:+ replace_runs cls repl true s'
      else String c (replace_runs cls repl false s')
  end.

(** [s.includes(sub)] *)
Fixpoint includes (sub s : string) : bool :=
  String.prefix sub s ||
  match s with
  | EmptyString => false
  | String _ s' => includes sub s'
  end.

(** A template literal: the concatenation of its parts. *)
Fixpoint template (parts : list string) : string :=
  match parts with
  | [] => EmptyString
  | p :: ps => p +:+ template ps
  end.

(** [parts.join(sep)] *)
Definition join (sep : string) (parts : list string) : string :=
  String.concat sep parts.

Definition nl : string := String (ascii_of_N 10) EmptyString.
Definition dquote : string := String (ascii_of_N 34) EmptyString.

(** Keeps the characters that satisfy [p]. *)
Fixpoint keep (p : ascii -> bool) (s : string) : string :=
  match s with
  | EmptyString => EmptyString
  | String c s' => if p c then String c (keep p s') else keep p s'
  end.

(** Every character of [s] satisfies [p]. *)
Fixpoint all_chars (p : ascii -> bool) (s : string) : bool :=
  match s with
  | EmptyString => true
  | String c s' => p c && all_chars p s'
  end.

End JsString.

(** ** Filename generation ([generateImageFilename], lines 93-103) *)

Module Filename.
Import Chars JsString.

(** The chain that computes [safePrompt] (lines 94-98). *)
Definition safePrompt (prompt : string) : string :=
  substring 0 50
    (replace_runs is_space "_" false
       (replace_each not_alnum_space ""
          (toLowerCase prompt))).

(** [seed ? `_${seed}` : ''] : a number is falsy when it is 0. *)
Definition seedStr (seed : option Z) : string :=
  match seed with
  | Some n => if (n =? 0)%Z then "" else "_" +:+ pretty n
  | None => ""
  end.

(** [now] is what [new Date().toISOString()] returns at the call. *)
Definition generateImageFilename (now : string) (prompt : string) (index : Z)
    (seed : option Z) : string :=
  let timestamp := replace_each is_colon_or_dot "-" now in
  template ["minimax_"; safePrompt prompt; seedStr seed; "_"; pretty index;
            "_"; timestamp; ".png"].

(** The same filename, written after the specification's words: lowercase,
    keep letters, digits and whitespace, turn each whitespace run into one
    underscore, keep at most 50 characters, append the seed when there is
    one. Of the definitions above it uses the character classes
    [is_digit], [is_space] and [is_colon_or_dot] and the filter [keep];
    lowercasing, the letters, the collapse and the cut are its own. *)
Module Spec.

(** Lowercasing by table: the capital letters below 256 and, at the same
    position, their small letters. *)
Definition capitals : list N :=
  [65; 66; 67; 68; 69; 70; 71; 72; 73; 74; 75; 76; 77; 78; 79; 80;
   81; 82; 83; 84; 85; 86; 87; 88; 89; 90; 192; 193; 194; 195; 196;
   197; 198; 199; 200; 201; 202; 203; 204; 205; 206; 207; 208; 209;
   210; 211; 212; 213; 214; 216; 217; 218; 219; 220; 221; 222]%N.

Definition smalls : list N :=
  [97; 98; 99; 100; 101; 102; 103; 104; 105; 106; 107; 108; 109;
   110; 111; 112; 113; 114; 115; 116; 117; 118; 119; 120; 121; 122;
   224; 225; 226; 227; 228; 229; 230; 231; 232; 233; 234; 235; 236;
   237; 238; 239; 240; 241; 242; 243; 244; 245; 246; 248; 249; 250;
   251; 252; 253; 254]%N.

Fixpoint paired (c : N) (us ls : list N) : N :=
  match us, ls with
  | u :: us', l :: ls' => if (c =? u)%N then l else paired c us' ls'
  | _, _ => c
  end.

Definition lower (c : ascii) : ascii := ascii_of_N (paired (code c) capitals smalls).

Fixpoint lowercase (s : string) : string :=
  match s with
  | EmptyString => EmptyString
  | String c s' => String (lower c) (lowercase s')
  end.

(** The letters below 256, as ranges of code units: A-Z, a-z, the
    ordinal indicators and the micro sign, and the accented letters. *)
Definition letters : list (N * N) :=
  [(65, 90); (97, 122); (170, 170); (181, 181); (186, 186); (192, 214);
   (216, 246); (248, 255)]%N.

(** The letters of the English alphabet only. *)
Definition ascii_letters : list (N * N) := [(65, 90); (97, 122)]%N.

Definition is_letter (alphabet : list (N * N)) (c : ascii) : bool :=
  existsb (fun '(lo, hi) => in_range lo hi c) alphabet.

Definition strip (alphabet : list (N * N)) (s : string) : string :=
  keep (fun c => is_letter alphabet c || is_digit c || is_space c) s.

(** Whitespace runs become single underscores: an underscore is emitted at
    the first character of a run, the rest of the run is dropped. *)
Fixpoint drop_spaces (s : string) : string :=
  match s with
  | EmptyString => EmptyString
  | String c s' => if is_space c then drop_spaces s' else s
  end.

Fixpoint collapse (fuel : nat) (s : string) : string :=
  match fuel with
  | O => EmptyString
  | S fuel' =>
      match s with
      | EmptyString => EmptyString
      | String c s' =>
          if is_space c then String underscore (collapse fuel' (drop_spaces s'))
          else String c (collapse fuel' s')
      end
  end.

Fixpoint truncate (n : nat) (s : string) : string :=
  match n, s with
  | S n', String c s' => String c (truncate n' s')
  | _, _ => EmptyString
  end.

Definition sanitized (alphabet : list (N * N)) (seed_text : string) : string :=
  let stripped := strip alphabet (lowercase seed_text) in
  truncate 50 (collapse (String.length stripped) stripped).

Definition dashed (c : ascii) : ascii :=
  if is_colon_or_dot c then ascii_of_N 45 else c.

Fixpoint dash_timestamp (s : string) : string :=
  match s with
  | EmptyString => EmptyString
  | String c s' => String (dashed c) (dash_timestamp s')
  end.

(** The optional [_seed] suffix: present when a seed number is given. *)
Definition seed_suffix (seed : option Z) : string :=
  match seed with
  | Some n => "_" +:+ pretty n
  | None => ""
  end.

Definition filename (alphabet : list (N * N)) (now seed_text : string)
    (ordinal : Z) (seed : option Z) : string :=
  "minimax_" +:+ sanitized alphabet seed_text +:+ seed_suffix seed +:+ "_" +:+
  pretty ordinal +:+ "_" +:+ dash_timestamp now +:+ ".png".

End Spec.

End Filename.

(** ** JavaScript values, thrown values, and the effect monad *)

Module Js.

(** A primitive JSON value; [undefined] is the [None] of [option jsval]. *)
Inductive jsval : Type :=
  | JNull
  | JBool (b : bool)
  | JNum (n : Z)
  | JStr (s : string).

(** What [`${v}`] yields. *)
Definition ToString (v : option jsval) : string :=
  match v with
  | None => "undefined"
  | Some JNull => "null"
  | Some (JBool true) => "true"
  | Some (JBool false) => "false"
  | Some (JNum n) => pretty n
  | Some (JStr s) => s
  end.

(** What [v ? a : b] tests. *)
Definition truthy (v : option jsval) : bool :=
  match v with
  | None | Some JNull => false
  | Some (JBool b) => b
  | Some (JNum n) => negb (n =? 0)%Z
  | Some (JStr s) => negb (String.eqb s "")
  end.

Definition truthy_str (s : option string) : bool := truthy (JStr <$> s).
Definition truthy_num (n : option Z) : bool := truthy (JNum <$> n).

(** A thrown value: an [Error] object with its [message], or anything else. *)
Inductive jserr : Type :=
  | JsError (message : string)
  | JsOther (v : option jsval).

(** How an awaited gateway call settles. *)
Inductive answer (A : Type) : Type :=
  | Resolved (a : A)
  | Rejected (e : jserr).
Arguments Resolved {A} a.
Arguments Rejected {A} e.

(** How a computation ends: it returns, it throws, an exception raised
    outside of it stays uncaught (the process exits with the computation
    pending), or it is left pending for ever. *)
Inductive res (A : Type) : Type :=
  | Ok (a : A)
  | Throw (e : jserr)
  | Uncaught (e : jserr)
  | Pending.
Arguments Ok {A} a.
Arguments Throw {A} e.
Arguments Uncaught {A} e.
Arguments Pending {A}.

(** Two computations end in the same way, and neither returns nor throws:
    both die of the same uncaught exception, or both stay pending. *)
Definition unsettled {A B} (r : res A) (r' : res B) : Prop :=
  match r, r' with
  | Uncaught e, Uncaught e' => e = e'
  | Pending, Pending => True
  | _, _ => False
  end.

(** An object literal property [{ k: v }] whose value may be [undefined]:
    a property holding [undefined] reads like a missing one. *)
Definition set_prop (k : string) (v : option jsval) (o : gmap string jsval)
    : gmap string jsval :=
  match v with
  | Some x => <[k := x]> o
  | None => o
  end.

End Js.

(** ** What the gateway returns *)

Module Fal.
Import Js.

Definition MODEL : string := "fal-ai/minimax/image-01".

Record Image : Type := {
  img_url : string;
  img_content_type : option string;
  img_file_name : option string;
  img_file_size : option Z
}.

(** [interface MinimaxImageResult] (lines 29-37) *)
Record MinimaxImageResult : Type := {
  images : list Image;
  seed : option Z
}.

(** The result of [fal.subscribe] and of [fal.queue.result]. *)
Record Result : Type := {
  data : MinimaxImageResult;
  requestId : string
}.

(** The result of [fal.queue.submit]. *)
Record Enqueued : Type := { request_id : string }.

Record LogEntry : Type := {
  log_timestamp : string;
  log_message : string
}.

(** The result of [fal.queue.status]. *)
Record QueueStatus : Type := {
  status : string;
  response_url : option string;
  logs : option (list LogEntry)
}.

(** One gateway call, as a test double would record it. *)
Inductive Call : Type :=
  | Subscribe (endpoint : string) (input : gmap string jsval)
  | QueueSubmit (endpoint : string) (input : gmap string jsval)
      (webhookUrl : option jsval)
  | QueueStatusCall (endpoint : string) (requestId logs : option jsval)
  | QueueResult (endpoint : string) (requestId : option jsval).

End Fal.

(** ** The world outside the process, and the process state *)

Module Sys.
Import Js Fal.

(** How one download goes once the write stream is created and the GET
    is issued. The stream fails to open, which it reports with an
    ['error'] event before any response; or the file opens and the request
    errors; or the file opens and a response arrives with a status code
    and a body, where [write_error = Some (k, e)] says that the file
    stream fails with [e] after [k] characters reached the file; or the
    file opens and a 200 response is cut off after [received] reached the
    file, where [aborted] is the ['error'] event the runtime emits on the
    response, if it emits one. *)
Inductive HttpOutcome : Type :=
  | OpenError (e : jserr)
  | ConnError (e : jserr)
  | Response (statusCode : Z) (body : string) (write_error : option (nat * jserr))
  | EndsEarly (received : string) (aborted : option jserr).

Record World : Type := {
  env_FAL_KEY : option string;
  cwd : string;
  (** the ISO string of the k-th [new Date()] of the process *)
  now : nat -> string;
  (** [new URL(url)]: [None] when it throws, else whether the protocol is
      ['https:'] *)
  parse_url : string -> option bool;
  (** the behaviour of the GET issued by the k-th [downloadImage] call *)
  http_get : nat -> string -> HttpOutcome;
  fal_subscribe : gmap string jsval -> answer Result;
  fal_queue_submit : gmap string jsval -> option jsval -> answer Enqueued;
  fal_queue_status : option jsval -> option jsval -> answer QueueStatus;
  fal_queue_result : option jsval -> answer Result
}.

Definition with_http (w : World) (h : nat -> string -> HttpOutcome) : World :=
  {| env_FAL_KEY := env_FAL_KEY w; cwd := cwd w; now := now w;
     parse_url := parse_url w; http_get := h;
     fal_subscribe := fal_subscribe w; fal_queue_submit := fal_queue_submit w;
     fal_queue_status := fal_queue_status w;
     fal_queue_result := fal_queue_result w |}.

Inductive FsOp : Type :=
  | Mkdir (dir : string)
  | CreateWriteStream (file : string)
  | Pipe (file : string) (written : string)
  | Unlink (file : string).

Inductive Event : Type :=
  | EvGateway (c : Call)
  | EvDownload (url filename : string)
  | EvHttpGet (secure : bool) (url : string)
  | EvFs (op : FsOp).

(** The process state: the module-level flag [falConfigured], the file
    system, and what a test double would observe. [clock_reads] and
    [downloads] count the clock readings and the [downloadImage] calls made
    so far and index the oracles of the world; [trace] records the outbound
    calls and the file operations in order. *)
Record State : Type := {
  falConfigured : bool;
  files : gmap string string;
  dirs : gset string;
  clock_reads : nat;
  downloads : nat;
  trace : list Event
}.

Definition emit (ev : Event) (s : State) : State :=
  {| falConfigured := falConfigured s; files := files s; dirs := dirs s;
     clock_reads := clock_reads s; downloads := downloads s;
     trace := trace s ++ [ev] |}.

Definition with_files (f : gmap string string) (s : State) : State :=
  {| falConfigured := falConfigured s; files := f; dirs := dirs s;
     clock_reads := clock_reads s; downloads := downloads s;
     trace := trace s |}.

Definition with_dirs (d : gset string) (s : State) : State :=
  {| falConfigured := falConfigured s; files := files s; dirs := d;
     clock_reads := clock_reads s; downloads := downloads s;
     trace := trace s |}.

Definition tick_clock (s : State) : State :=
  {| falConfigured := falConfigured s; files := files s; dirs := dirs s;
     clock_reads := S (clock_reads s); downloads := downloads s;
     trace := trace s |}.

Definition count_download (s : State) : State :=
  {| falConfigured := falConfigured s; files := files s; dirs := dirs s;
     clock_reads := clock_reads s; downloads := S (downloads s);
     trace := trace s |}.

(** Lines 13-26: the flag is set once, from the environment. *)
Definition startup (w : World) : State :=
  {| falConfigured :=
       match env_FAL_KEY w with
       | Some key => negb (String.eqb key "")
       | None => false
       end;
     files := ∅; dirs := ∅; clock_reads := 0; downloads := 0; trace := [] |}.

(** State and exceptions: a thrown value keeps the effects made so far;
    an uncaught exception and a pending promise end the computation. *)
Definition M (A : Type) : Type := State -> res A * State.

Definition ret {A} (a : A) : M A := fun s => (Ok a, s).
Definition throw {A} (e : jserr) : M A := fun s => (Throw e, s).
Definition bind {A B} (m : M A) (k : A -> M B) : M B :=
  fun s => match m s with
           | (Ok a, s') => k a s'
           | (Throw e, s') => (Throw e, s')
           | (Uncaught e, s') => (Uncaught e, s')
           | (Pending, s') => (Pending, s')
           end.
Definition try_catch {A} (body : M A) (handler : jserr -> M A) : M A :=
  fun s => match body s with
           | (Ok a, s') => (Ok a, s')
           | (Throw e, s') => handler e s'
           | (Uncaught e, s') => (Uncaught e, s')
           | (Pending, s') => (Pending, s')
           end.
Definition get_state : M State := fun s => (Ok s, s).
Definition modify (f : State -> State) : M unit := fun s => (Ok tt, f s).
(** [await p] on a promise that settles: it resolves or rejects. *)
Definition await {A} (r : answer A) : M A :=
  fun s => (match r with Resolved a => Ok a | Rejected e => Throw e end, s).
(** An ['error'] event emitted on a stream that has no listener for it. *)
Definition uncaught {A} (e : jserr) : M A := fun s => (Uncaught e, s).
(** A promise that nothing will settle. *)
Definition pending {A} : M A := fun s => (Pending, s).

End Sys.

Notation "x <- m ;; k" := (Sys.bind m (fun x => k))
  (at level 100, m at next level, right associativity).
Notation "m ;;; k" := (Sys.bind m (fun _ => k))
  (at level 100, right associativity).

(** ** Downloading one image ([downloadImage], lines 51-90) *)

Module Download.
Import Chars JsString Js Fal Sys.

(** [path.join(a, b)] for a directory without trailing slash and a
    segment without slashes or dots-only parts. *)
Definition path_join (a b : string) : string := a +:+ "/" +:+ b.

Definition existsSync (dir : string) : M bool :=
  s <- get_state ;; ret (bool_decide (dir ∈ dirs s)).

Definition mkdirSync (dir : string) : M unit :=
  modify (fun s => emit (EvFs (Mkdir dir)) (with_dirs ({[dir]} ∪ dirs s) s)).

(** Opening a write stream creates the file, or empties an existing one;
    when the open fails the file system is left as it was. The call
    itself returns in both cases: the failure is reported later, by an
    ['error'] event on the stream. *)
Definition createWriteStream (file : string) (opens : bool) : M unit :=
  modify (fun s => emit (EvFs (CreateWriteStream file))
                     (if opens then with_files (<[file := ""]> (files s)) s
                      else s)).

(** [response.pipe(file)] delivering [written] to the file. *)
Definition pipe (file written : string) : M unit :=
  modify (fun s => emit (EvFs (Pipe file written))
                     (with_files (<[file := written]> (files s)) s)).

Definition unlink (file : string) : M unit :=
  modify (fun s => emit (EvFs (Unlink file))
                     (with_files (delete file (files s)) s)).

(** Lines 51-90, as the [k]-th download of the process. The write stream
    is created before the request is issued (line 64), and its ['error']
    listener is attached in the response callback, after the status test
    (line 79). *)
Definition downloadImage (w : World) (url filename : string) : M string :=
  s0 <- get_state ;;
  let k := downloads s0 in
  modify (fun s => emit (EvDownload url filename) (count_download s)) ;;;
  match parse_url w url with
  | None => throw (JsError "Invalid URL")
  | Some secure =>
      let imagesDir := path_join (cwd w) "images" in
      present <- existsSync imagesDir ;;
      (if present then ret tt else mkdirSync imagesDir) ;;;
      let filePath := path_join imagesDir filename in
      let outcome := http_get w k url in
      createWriteStream filePath
        (match outcome with OpenError _ => false | _ => true end) ;;;
      modify (emit (EvHttpGet secure url)) ;;;
      match outcome with
      | OpenError err =>
          (* the listener of line 79 is not attached yet *)
          uncaught err
      | ConnError err => throw err
      | Response statusCode body write_error =>
          if negb (statusCode =? 200)%Z then
            throw (JsError ("Failed to download image: HTTP " +:+ pretty statusCode))
          else
            match write_error with
            | None => pipe filePath body ;;; ret filePath
            | Some (n, err) =>
                pipe filePath (substring 0 n body) ;;;
                unlink filePath ;;;
                throw err
            end
      | EndsEarly received aborted =>
          (* neither ['finish'] nor ['error'] is emitted on the file, and
             nobody listens to the response's ['error'] *)
          pipe filePath received ;;;
          match aborted with
          | Some err => uncaught err
          | None => pending
          end
      end
  end.

(** The path [downloadImage] writes [filename] to. *)
Definition local_path (w : World) (filename : string) : string :=
  path_join (path_join (cwd w) "images") filename.

(** How the promise of the k-th [downloadImage] call settles, read off the
    world alone. *)
Definition download_result (w : World) (k : nat) (url filename : string)
    : res string :=
  match parse_url w url with
  | None => Throw (JsError "Invalid URL")
  | Some _ =>
      match http_get w k url with
      | OpenError err => Uncaught err
      | ConnError err => Throw err
      | Response statusCode _ write_error =>
          if negb (statusCode =? 200)%Z then
            Throw (JsError ("Failed to download image: HTTP " +:+ pretty statusCode))
          else
            match write_error with
            | None => Ok (local_path w filename)
            | Some (_, err) => Throw err
            end
      | EndsEarly _ (Some err) => Uncaught err
      | EndsEarly _ None => Pending
      end
  end.

(** The promise of the k-th [downloadImage] call settles: it resolves or
    rejects. *)
Definition download_settles (w : World) (k : nat) (url : string) : bool :=
  match parse_url w url with
  | None => true
  | Some _ =>
      match http_get w k url with
      | OpenError _ | EndsEarly _ _ => false
      | ConnError _ | Response _ _ _ => true
      end
  end.

(** The k-th download got a 200 response and then a write error. *)
Definition write_fails (w : World) (k : nat) (url : string) : bool :=
  match parse_url w url, http_get w k url with
  | Some _, Response statusCode _ (Some _) => (statusCode =? 200)%Z
  | _, _ => false
  end.

(** The files deleted in a trace. *)
Definition unlinks (tr : list Event) : list string :=
  omap (fun ev => match ev with EvFs (Unlink f) => Some f | _ => None end) tr.

End Download.

(** ** Materialization and report formatting *)

Module Materializer.
Import Chars JsString Filename Js Fal Sys Download.

(** An element of [downloadedImages] (lines 207-215 and 220-228). *)
Record Downloaded : Type := {
  d_url : string;
  localPath : option string;
  index : Z;
  content_type : string;
  file_name : string;
  file_size : option Z;
  filename : string
}.

(** [o || fallback] on an optional string. *)
Definition str_or (o : option string) (fallback : string) : string :=
  match o with
  | Some x => if String.eqb x "" then fallback else x
  | None => fallback
  end.

Definition mkDownloaded (image : Image) (path : option string) (i : nat)
    (fname : string) : Downloaded :=
  {| d_url := img_url image;
     localPath := path;
     index := Z.of_nat i + 1;
     content_type := str_or (img_content_type image) "image/png";
     file_name := str_or (img_file_name image) fname;
     file_size := img_file_size image;
     filename := fname |}.

(** The call [generateImageFilename(prompt, i + 1, output.seed)] on a
    [prompt] of any type: [prompt.toLowerCase()] throws a [TypeError]
    unless [prompt] is a string; the clock is read after the prompt was
    sanitized. *)
Definition call_generateImageFilename (w : World) (prompt : option jsval)
    (idx : Z) (seed : option Z) : M string :=
  match prompt with
  | Some (JStr p) =>
      s <- get_state ;;
      modify tick_clock ;;;
      ret (generateImageFilename (now w (clock_reads s)) p idx seed)
  | None =>
      throw (JsError "Cannot read properties of undefined (reading 'toLowerCase')")
  | Some JNull =>
      throw (JsError "Cannot read properties of null (reading 'toLowerCase')")
  | Some _ => throw (JsError "prompt.toLowerCase is not a function")
  end.

(** The download loop (lines 201-230, and again 515-543): [imgs] holds
    [output.images] from position [i] on. *)
Fixpoint download_loop (w : World) (naming : option jsval) (seed : option Z)
    (imgs : list Image) (i : nat) (downloadedImages : list Downloaded)
    : M (list Downloaded) :=
  match imgs with
  | [] => ret downloadedImages
  | image :: rest =>
      fname <- call_generateImageFilename w naming (Z.of_nat i + 1) seed ;;
      entry <- try_catch
                 (path <- downloadImage w (img_url image) fname ;;
                  ret (mkDownloaded image (Some path) i fname))
                 (fun _ => ret (mkDownloaded image None i fname)) ;;
      download_loop w naming seed rest (S i) (downloadedImages ++ [entry])
  end.

(** Every download of the loop over [imgs] settles, when the first of
    them is the [d]-th [downloadImage] call of the process. *)
Fixpoint downloads_settle (w : World) (d : nat) (imgs : list Image) : bool :=
  match imgs with
  | [] => true
  | image :: rest =>
      download_settles w d (img_url image) && downloads_settle w (S d) rest
  end.

(** Lines 233-245. *)
Definition image_details (img : Downloaded) : string :=
  template
    ["Image "; pretty (index img); ":";
     match localPath img with
     | Some path =>
         if truthy_str (localPath img) then nl +:+ "  Local Path: " +:+ path
         else ""
     | None => ""
     end;
     nl; "  Original URL: "; d_url img;
     nl; "  Filename: "; filename img;
     nl; "  Content Type: "; content_type img;
     match file_size img with
     | Some size =>
         if truthy_num (file_size img)
         then nl +:+ "  File Size: " +:+ pretty size +:+ " bytes"
         else ""
     | None => ""
     end].

Definition imageDetails (downloadedImages : list Downloaded) : string :=
  join (nl +:+ nl) (map image_details downloadedImages).

(** [output.seed ? `Seed: ${output.seed}` : 'Seed: Auto-generated'] *)
Definition seed_line (seed : option Z) : string :=
  match seed with
  | Some n => if truthy_num seed then "Seed: " +:+ pretty n
              else "Seed: Auto-generated"
  | None => "Seed: Auto-generated"
  end.

Definition download_note (downloadedImages : list Downloaded) : string :=
  if existsb (fun img => truthy_str (localPath img)) downloadedImages
  then "Images have been downloaded to the local 'images' directory."
  else "Note: Local download failed, but original URLs are available.".

(** [prompt_optimizer !== undefined ? `Prompt Optimizer: ...` : ''] *)
Definition optimizer_line (prompt_optimizer : option jsval) : string :=
  match prompt_optimizer with
  | Some _ =>
      "Prompt Optimizer: " +:+
      (if truthy prompt_optimizer then "Enabled" else "Disabled")
  | None => ""
  end.

(** [responseText] of [minimax_generate] (lines 247-259). *)
Definition generate_report (prompt aspect_ratio num_images prompt_optimizer
    : option jsval) (output : MinimaxImageResult) (request : string)
    (downloadedImages : list Downloaded) : string :=
  template
    ["Successfully generated "; pretty (length downloadedImages);
     " image(s) using fal-ai/minimax/image-01:"; nl; nl;
     "Prompt: "; dquote; ToString prompt; dquote; nl;
     "Aspect Ratio: "; ToString aspect_ratio; nl;
     "Number of Images: "; ToString num_images; nl;
     optimizer_line prompt_optimizer; nl;
     seed_line (seed output); nl;
     "Request ID: "; request; nl; nl;
     "Generated Images:"; nl;
     imageDetails downloadedImages; nl; nl;
     download_note downloadedImages].

(** [responseText] of [minimax_queue_result] (lines 559-568). *)
Definition queue_result_report (request_id : option jsval)
    (output : MinimaxImageResult) (downloadedImages : list Downloaded) : string :=
  template
    ["Queue Result for Request ID: "; ToString request_id; nl; nl;
     "Successfully completed! Generated "; pretty (length downloadedImages);
     " image(s):"; nl; nl;
     seed_line (seed output); nl; nl;
     "Generated Images:"; nl;
     imageDetails downloadedImages; nl; nl;
     download_note downloadedImages].

(** The entry the loop records for [image] at loop index [i], when the
    clock is read for the [c]-th time and [downloadImage] is called for the
    [d]-th time. *)
Definition entry (w : World) (p : string) (seed : option Z) (c d i : nat)
    (image : Image) : Downloaded :=
  let fname := generateImageFilename (now w c) p (Z.of_nat i + 1) seed in
  mkDownloaded image
    (match download_result w d (img_url image) fname with
     | Ok path => Some path
     | _ => None
     end) i fname.

(** The entries the loop records for [imgs], in order. *)
Fixpoint entries (w : World) (p : string) (seed : option Z) (c d i : nat)
    (imgs : list Image) : list Downloaded :=
  match imgs with
  | [] => []
  | image :: rest =>
      entry w p seed c d i image :: entries w p seed (S c) (S d) (S i) rest
  end.

End Materializer.

(** ** The four tool handlers *)

Module Tools.
Import Chars JsString Filename Js Fal Sys Download Materializer.

(** The response envelope: one text block, and the [isError] flag. *)
Record ToolResponse : Type := {
  text : string;
  isError : bool
}.

(** Returned by every handler when [falConfigured] is false. *)
Definition not_configured : ToolResponse :=
  {| text := "Error: FAL_KEY environment variable is not set. Please configure your fal.ai API key.";
     isError := true |}.

(** [if (error instanceof Error) errorMessage += ` Error: ${error.message}`] *)
Definition error_response (headline : string) (error : jserr) : ToolResponse :=
  {| text := match error with
             | JsError message => headline +:+ " Error: " +:+ message
             | JsOther _ => headline
             end;
     isError := true |}.

Definition success (responseText : string) : ToolResponse :=
  {| text := responseText; isError := false |}.

(** A property read with a destructuring default. *)
Definition prop_or (args : gmap string jsval) (k : string) (d : jsval)
    : option jsval :=
  Some (default d (args !! k)).

(** The [input] object of [minimax_generate] (lines 172-180). *)
Definition generate_input (args : gmap string jsval) : gmap string jsval :=
  let prompt := args !! "prompt" in
  let aspect_ratio := prop_or args "aspect_ratio" (JStr "1:1") in
  let num_images := prop_or args "num_images" (JNum 1) in
  let prompt_optimizer := args !! "prompt_optimizer" in
  let sync_mode := prop_or args "sync_mode" (JBool true) in
  set_prop "prompt_optimizer" prompt_optimizer
    (set_prop "sync_mode" sync_mode
       (set_prop "num_images" num_images
          (set_prop "aspect_ratio" aspect_ratio
             (set_prop "prompt" prompt ∅)))).

(** Lines 150-289. *)
Definition minimax_generate (w : World) (args : gmap string jsval)
    : M ToolResponse :=
  s <- get_state ;;
  if negb (falConfigured s) then ret not_configured else
  let prompt := args !! "prompt" in
  let aspect_ratio := prop_or args "aspect_ratio" (JStr "1:1") in
  let num_images := prop_or args "num_images" (JNum 1) in
  let prompt_optimizer := args !! "prompt_optimizer" in
  try_catch
    (let input := generate_input args in
     modify (emit (EvGateway (Subscribe MODEL input))) ;;;
     result <- await (fal_subscribe w input) ;;
     let output := data result in
     downloadedImages <-
       download_loop w prompt (seed output) (images output) 0 [] ;;
     ret (success (generate_report prompt aspect_ratio num_images
                     prompt_optimizer output (requestId result)
                     downloadedImages)))
    (fun error =>
       ret (error_response
              "Failed to generate image with fal-ai/minimax/image-01." error)).

(** The response of [minimax_generate] for the recorded entries [ds]. *)
Definition generate_response (args : gmap string jsval) (result : Result)
    (ds : list Downloaded) : ToolResponse :=
  success (generate_report (args !! "prompt")
             (prop_or args "aspect_ratio" (JStr "1:1"))
             (prop_or args "num_images" (JNum 1))
             (args !! "prompt_optimizer")
             (data result) (requestId result) ds).

(** [responseText] of [minimax_generate_queue] (lines 355-361). *)
Definition queue_submit_report (result : Enqueued)
    (input : gmap string jsval) (webhook_url : option jsval) : string :=
  template
    ["Successfully submitted image generation request to queue."; nl; nl;
     "Request ID: "; request_id result; nl;
     "Prompt: "; dquote; ToString (input !! "prompt"); dquote; nl;
     if truthy webhook_url then "Webhook URL: " +:+ ToString webhook_url
     else "No webhook configured";
     nl; nl;
     "Use the request ID with minimax_queue_status to check progress or minimax_queue_result to get the final result."].

(** Lines 330-384. *)
Definition minimax_generate_queue (w : World) (args : gmap string jsval)
    : M ToolResponse :=
  s <- get_state ;;
  if negb (falConfigured s) then ret not_configured else
  let webhook_url := args !! "webhook_url" in
  let input := delete "webhook_url" args in
  try_catch
    (modify (emit (EvGateway (QueueSubmit MODEL input webhook_url))) ;;;
     result <- await (fal_queue_submit w input webhook_url) ;;
     ret (success (queue_submit_report result input webhook_url)))
    (fun error =>
       ret (error_response
              "Failed to submit queue request for fal-ai/minimax/image-01."
              error)).

Definition log_line (log : LogEntry) : string :=
  template ["["; log_timestamp log; "] "; log_message log].

(** [responseText] of [minimax_queue_status] (lines 429-441). *)
Definition queue_status_report (request_id : option jsval)
    (st : QueueStatus) : string :=
  let responseText :=
    template ["Queue Status for Request ID: "; ToString request_id; nl; nl;
              "Status: "; status st] in
  let responseText :=
    match response_url st with
    | Some u =>
        if truthy_str (response_url st)
        then responseText +:+ template [nl; "Response URL: "; u]
        else responseText
    | None => responseText
    end in
  match logs st with
  | Some entries =>
      if (0 <? length entries)%nat
      then responseText +:+
           template [nl; nl; "Logs:"; nl; join nl (map log_line entries)]
      else responseText
  | None => responseText
  end.

(** Lines 408-470. *)
Definition minimax_queue_status (w : World) (args : gmap string jsval)
    : M ToolResponse :=
  s <- get_state ;;
  if negb (falConfigured s) then ret not_configured else
  let request_id := args !! "request_id" in
  let logs := prop_or args "logs" (JBool true) in
  try_catch
    (modify (emit (EvGateway (QueueStatusCall MODEL request_id logs))) ;;;
     st <- await (fal_queue_status w request_id logs) ;;
     ret (success (queue_status_report request_id st)))
    (fun error => ret (error_response "Failed to check queue status." error)).

(** Lines 489-597. *)
Definition minimax_queue_result (w : World) (args : gmap string jsval)
    : M ToolResponse :=
  s <- get_state ;;
  if negb (falConfigured s) then ret not_configured else
  let request_id := args !! "request_id" in
  try_catch
    (modify (emit (EvGateway (QueueResult MODEL request_id))) ;;;
     result <- await (fal_queue_result w request_id) ;;
     let output := data result in
     let naming := Some (JStr ("queue_result_" +:+ ToString request_id)) in
     downloadedImages <-
       download_loop w naming (seed output) (images output) 0 [] ;;
     ret (success (queue_result_report request_id output downloadedImages)))
    (fun error => ret (error_response "Failed to get queue result." error)).

Inductive Tool : Type :=
  | GenerateSync
  | GenerateQueue
  | QueueStatusTool
  | QueueResultTool.

Definition tool_name (t : Tool) : string :=
  match t with
  | GenerateSync => "minimax_generate"
  | GenerateQueue => "minimax_generate_queue"
  | QueueStatusTool => "minimax_queue_status"
  | QueueResultTool => "minimax_queue_result"
  end.

Definition handler (w : World) (t : Tool) : gmap string jsval -> M ToolResponse :=
  match t with
  | GenerateSync => minimax_generate w
  | GenerateQueue => minimax_generate_queue w
  | QueueStatusTool => minimax_queue_status w
  | QueueResultTool => minimax_queue_result w
  end.

(** A process lifetime: the tool calls it serves, one after the other,
    and the responses it sends. A call left pending is never answered and
    the server goes on with the next one; an uncaught exception ends the
    process. *)
Fixpoint serve (w : World) (calls : list (Tool * gmap string jsval))
    : M (list ToolResponse) :=
  match calls with
  | [] => ret []
  | (t, args) :: rest =>
      fun s =>
        match handler w t args s with
        | (Ok r, s1) => (rs <- serve w rest ;; ret (r :: rs)) s1
        | (Pending, s1) => serve w rest s1
        | (Throw e, s1) => (Throw e, s1)
        | (Uncaught e, s1) => (Uncaught e, s1)
        end
  end.

(** The gateway calls recorded in a trace. *)
Definition gateway_calls (tr : list Event) : list Call :=
  omap (fun ev => match ev with EvGateway c => Some c | _ => None end) tr.

(** The [downloadImage] calls recorded in a trace. *)
Definition download_attempts (tr : list Event) : list string :=
  omap (fun ev => match ev with EvDownload u _ => Some u | _ => None end) tr.

End Tools.

(** ** The declared input schemas *)

Module Protocol.
Import Js Sys Tools.

Inductive PropertySchema : Type :=
  | SchemaString (maxLength : option nat) (enum : option (list string))
  | SchemaInteger (minimum maximum : option Z)
  | SchemaBoolean.

Record InputSchema : Type := {
  properties : list (string * PropertySchema);
  required : list string
}.

Definition aspect_ratios : list string :=
  ["1:1"; "16:9"; "4:3"; "3:2"; "2:3"; "3:4"; "9:16"; "21:9"].

(** Lines 116-148. *)
Definition minimax_generate_schema : InputSchema :=
  {| properties :=
       [("prompt", SchemaString (Some 1500) None);
        ("aspect_ratio", SchemaString None (Some aspect_ratios));
        ("num_images", SchemaInteger (Some 1%Z) (Some 9%Z));
        ("prompt_optimizer", SchemaBoolean);
        ("sync_mode", SchemaBoolean)];
     required := ["prompt"] |}.

(** Lines 297-328. *)
Definition minimax_generate_queue_schema : InputSchema :=
  {| properties :=
       [("prompt", SchemaString (Some 1500) None);
        ("aspect_ratio", SchemaString None (Some aspect_ratios));
        ("num_images", SchemaInteger (Some 1%Z) (Some 9%Z));
        ("prompt_optimizer", SchemaBoolean);
        ("webhook_url", SchemaString None None)];
     required := ["prompt"] |}.

(** Lines 392-406. *)
Definition minimax_queue_status_schema : InputSchema :=
  {| properties :=
       [("request_id", SchemaString None None); ("logs", SchemaBoolean)];
     required := ["request_id"] |}.

(** Lines 478-487. *)
Definition minimax_queue_result_schema : InputSchema :=
  {| properties := [("request_id", SchemaString None None)];
     required := ["request_id"] |}.

Definition inputSchema (t : Tool) : InputSchema :=
  match t with
  | GenerateSync => minimax_generate_schema
  | GenerateQueue => minimax_generate_queue_schema
  | QueueStatusTool => minimax_queue_status_schema
  | QueueResultTool => minimax_queue_result_schema
  end.

(** What a declared property schema allows, by the meaning of the JSON
    Schema keywords [type], [maxLength], [enum], [minimum] and [maximum].
    Nothing in [index.ts] evaluates it: the schemas are handed to
    [server.tool] as plain objects and no handler checks its arguments. *)
Definition conforms (ps : PropertySchema) (v : jsval) : bool :=
  match ps, v with
  | SchemaString maxLength enum, JStr s =>
      match maxLength with
      | Some m => (String.length s <=? m)%nat
      | None => true
      end &&
      match enum with
      | Some allowed => existsb (String.eqb s) allowed
      | None => true
      end
  | SchemaInteger minimum maximum, JNum n =>
      match minimum with Some lo => (lo <=? n)%Z | None => true end &&
      match maximum with Some hi => (n <=? hi)%Z | None => true end
  | SchemaBoolean, JBool _ => true
  | _, _ => false
  end.

(** The declared schema of property [k], when there is one. *)
Definition declared (schema : InputSchema) (k : string) : option PropertySchema :=
  snd <$> List.find (fun '(k', _) => String.eqb k k') (properties schema).

End Protocol.

(** ** Concrete worlds and calls used as test inputs *)

Module Examples.
Import Js Fal Sys Tools.

Definition image (u : string) : Image :=
  {| img_url := u; img_content_type := None; img_file_name := None;
     img_file_size := None |}.

Definition two_images (seed : option Z) : Result :=
  {| data := {| images := [image "https://cdn.example/a.png";
                           image "https://cdn.example/b.png"];
                seed := seed |};
     requestId := "req-1" |}.

(** The first download is answered with 404, every other one with 200. *)
Definition first_fails (k : nat) (u : string) : HttpOutcome :=
  if (k =? 0)%nat then Response 404 "" None else Response 200 "PNG" None.

Definition all_succeed (k : nat) (u : string) : HttpOutcome :=
  Response 200 "PNG" None.

(** The first download gets a 200 response whose third character cannot
    be written. *)
Definition write_breaks (k : nat) (u : string) : HttpOutcome :=
  Response 200 "PNGDATA" (Some (2%nat, JsError "ENOSPC")).

Definition world (key : option string) (http : nat -> string -> HttpOutcome)
    (seed : option Z) (st : answer QueueStatus) : World :=
  {| env_FAL_KEY := key;
     cwd := "/srv";
     now := fun _ => "2025-01-02T03:04:05.678Z";
     parse_url := fun _ => Some true;
     http_get := http;
     fal_subscribe := fun _ => Resolved (two_images seed);
     fal_queue_submit := fun _ _ => Resolved {| request_id := "abc123" |};
     fal_queue_status := fun _ _ => st;
     fal_queue_result := fun _ => Resolved (two_images seed) |}.

Definition in_progress : QueueStatus :=
  {| status := "IN_PROGRESS"; response_url := None; logs := None |}.

Definition configured : World :=
  world (Some "key") first_fails None (Resolved in_progress).

Definition unconfigured : World :=
  world None first_fails None (Resolved in_progress).

Definition zero_seed : World :=
  world (Some "key") all_succeed (Some 0%Z) (Resolved in_progress).


(** [{prompt: "test", aspect_ratio: "16:9"}] *)
Definition test_args : gmap string jsval :=
  <["prompt" := JStr "test"]> (<["aspect_ratio" := JStr "16:9"]> ∅).

Definition with_num_images (n : Z) : gmap string jsval :=
  <["num_images" := JNum n]> test_args.

(** [{request_id: "abc"}] *)
Definition status_args : gmap string jsval := <["request_id" := JStr "abc"]> ∅.

End Examples.

(** ** Observations on traces, and further test inputs *)

Module Observe.
Import Chars Js Fal Sys Tools.

(** The directories created in a trace. *)
Definition mkdirs (tr : list Event) : list string :=
  omap (fun ev => match ev with EvFs (Mkdir d) => Some d | _ => None end) tr.

(** The HTTP requests issued in a trace. *)
Definition http_gets (tr : list Event) : list string :=
  omap (fun ev => match ev with EvHttpGet _ u => Some u | _ => None end) tr.

(** The file operations of a trace. *)
Definition fs_ops (tr : list Event) : list FsOp :=
  omap (fun ev => match ev with EvFs op => Some op | _ => None end) tr.

(** The first sentence of the error text of each handler's [catch] block
    (lines 273, 369, 455 and 582). *)
Definition failure_headline (t : Tool) : string :=
  match t with
  | GenerateSync => "Failed to generate image with fal-ai/minimax/image-01."
  | GenerateQueue => "Failed to submit queue request for fal-ai/minimax/image-01."
  | QueueStatusTool => "Failed to check queue status."
  | QueueResultTool => "Failed to get queue result."
  end.

(** The gateway call a configured handler makes for [args] (lines 185,
    346, 424 and 505). *)
Definition gateway_call (t : Tool) (args : gmap string jsval) : Call :=
  match t with
  | GenerateSync => Subscribe MODEL (generate_input args)
  | GenerateQueue =>
      QueueSubmit MODEL (delete "webhook_url" args) (args !! "webhook_url")
  | QueueStatusTool =>
      QueueStatusCall MODEL (args !! "request_id")
        (prop_or args "logs" (JBool true))
  | QueueResultTool => QueueResult MODEL (args !! "request_id")
  end.

(** The failure the world answers that call with, if it throws. *)
Definition gateway_failure (w : World) (c : Call) : option jserr :=
  match c with
  | Subscribe _ input =>
      match fal_subscribe w input with Rejected e => Some e | Resolved _ => None end
  | QueueSubmit _ input hook =>
      match fal_queue_submit w input hook with
      | Rejected e => Some e
      | Resolved _ => None
      end
  | QueueStatusCall _ rid lg =>
      match fal_queue_status w rid lg with
      | Rejected e => Some e
      | Resolved _ => None
      end
  | QueueResult _ rid =>
      match fal_queue_result w rid with Rejected e => Some e | Resolved _ => None end
  end.

(** [/] *)
Definition is_slash (c : ascii) : bool := (code c =? 47)%N.

(** The ASCII punctuation characters, from [!] to [~]. *)
Definition is_ascii_punctuation (c : ascii) : bool :=
  in_range 33 47 c || in_range 58 64 c || in_range 91 96 c ||
  in_range 123 126 c.

End Observe.

Module MoreExamples.
Import Js Fal Sys Tools.

(** A process started with [FAL_KEY] set to the empty string. *)
Definition empty_key : World :=
  Examples.world (Some "") Examples.all_succeed None (Resolved Examples.in_progress).

(** No URL parses. *)
Definition bad_urls : World :=
  {| env_FAL_KEY := Some "key"; cwd := "/srv";
     now := fun _ => "2025-01-02T03:04:05.678Z";
     parse_url := fun _ => None;
     http_get := Examples.all_succeed;
     fal_subscribe := fun _ => Resolved (Examples.two_images None);
     fal_queue_submit := fun _ _ => Resolved {| request_id := "abc123" |};
     fal_queue_status := fun _ _ => Resolved Examples.in_progress;
     fal_queue_result := fun _ => Resolved (Examples.two_images None) |}.

Definition refused (k : nat) (u : string) : HttpOutcome :=
  ConnError (JsError "connect ECONNREFUSED").

(** Every request errors before a response arrives. *)
Definition offline : World :=
  Examples.world (Some "key") refused None (Resolved Examples.in_progress).

(** The gateway rejects every call with a value that is not an [Error]. *)
Definition gateway_down : World :=
  {| env_FAL_KEY := Some "key"; cwd := "/srv";
     now := fun _ => "2025-01-02T03:04:05.678Z";
     parse_url := fun _ => Some true;
     http_get := Examples.all_succeed;
     fal_subscribe := fun _ => Rejected (JsOther (Some (JStr "503")));
     fal_queue_submit := fun _ _ => Rejected (JsOther (Some (JStr "503")));
     fal_queue_status := fun _ _ => Rejected (JsOther (Some (JStr "503")));
     fal_queue_result := fun _ => Rejected (JsOther (Some (JStr "503"))) |}.

(** The images directory is not writable: the first write stream fails to
    open; the other downloads would succeed. *)
Definition first_open_fails (k : nat) (u : string) : HttpOutcome :=
  match k with
  | O => OpenError (JsError "EACCES: permission denied, open")
  | _ => Response 200 "PNG" None
  end.

Definition read_only : World :=
  Examples.world (Some "key") first_open_fails None (Resolved Examples.in_progress).

(** The first response is cut off after two characters; the other
    downloads would succeed. *)
Definition first_ends_early (k : nat) (u : string) : HttpOutcome :=
  match k with
  | O => EndsEarly "PN" None
  | _ => Response 200 "PNG" None
  end.

Definition cut_off : World :=
  Examples.world (Some "key") first_ends_early None (Resolved Examples.in_progress).

(** [{aspect_ratio: "16:9"}]: no prompt. *)
Definition no_prompt : gmap string jsval := <["aspect_ratio" := JStr "16:9"]> ∅.

(** [{prompt: "test", webhook_url: "https://hook.example"}] *)
Definition hook_args : gmap string jsval :=
  <["prompt" := JStr "test"]> (<["webhook_url" := JStr "https://hook.example"]> ∅).

Definition two_logs : QueueStatus :=
  {| status := "IN_PROGRESS"; response_url := None;
     logs := Some [ {| log_timestamp := "t1"; log_message := "queued" |};
                    {| log_timestamp := "t2"; log_message := "running" |} ] |}.

End MoreExamples.

(** * Properties *)

Open Scope list_scope.

(** ** Strings: concatenation, substrings, character-wise passes *)

Module StringFacts.
Import Chars JsString.

Lemma append_cons (c : ascii) (s t : string) :
  String c s +:+ t = String c (s +:+ t).
Proof. reflexivity. Qed.

Lemma append_nil_l (s : string) : "" +:+ s = s.
Proof. reflexivity. Qed.

Lemma append_nil_r (s : string) : s +:+ "" = s.
Proof. induction s as [|c s IH]; [reflexivity|]. rewrite append_cons, IH. reflexivity. Qed.

Lemma append_assoc (a b c : string) : (a +:+ b) +:+ c = a +:+ (b +:+ c).
Proof.
  induction a as [|x a IH]; [reflexivity|].
  rewrite !append_cons, IH. reflexivity.
Qed.

Lemma prefix_nil (s : string) : String.prefix "" s = true.
Proof. destruct s; reflexivity. Qed.

Lemma prefix_cons (c d : ascii) (a s : string) :
  String.prefix (String c a) (String d s) =
  if ascii_dec c d then String.prefix a s else false.
Proof. reflexivity. Qed.

Lemma prefix_app (a b : string) : String.prefix a (a +:+ b) = true.
Proof.
  induction a as [|c a IH]; [apply prefix_nil|].
  rewrite append_cons, prefix_cons.
  destruct (ascii_dec c c); [exact IH | congruence].
Qed.

Lemma prefix_app_r (a s t : string) :
  String.prefix a s = true -> String.prefix a (s +:+ t) = true.
Proof.
  revert s. induction a as [|c a IH]; intros s H; [apply prefix_nil|].
  destruct s as [|d s]; [discriminate H|].
  rewrite append_cons, prefix_cons. rewrite prefix_cons in H.
  destruct (ascii_dec c d); [apply IH; exact H | discriminate H].
Qed.

Lemma includes_cons (sub : string) (c : ascii) (s : string) :
  includes sub (String c s) = String.prefix sub (String c s) || includes sub s.
Proof. reflexivity. Qed.

Lemma includes_prefix (a s : string) :
  String.prefix a s = true -> includes a s = true.
Proof.
  intros H. destruct s as [|c s].
  - unfold includes. rewrite H. reflexivity.
  - rewrite includes_cons, H. reflexivity.
Qed.

Lemma includes_app_l (a s t : string) :
  includes a s = true -> includes a (s +:+ t) = true.
Proof.
  induction s as [|c s IH]; intros H.
  - simpl in H. rewrite orb_false_r in H. apply includes_prefix.
    destruct a; [apply prefix_nil | discriminate H].
  - rewrite append_cons, includes_cons. rewrite includes_cons in H.
    apply orb_true_iff in H as [H|H]; apply orb_true_iff.
    + left. apply (prefix_app_r _ (String c s) t H).
    + right. apply IH, H.
Qed.

Lemma includes_app_r (a p s : string) :
  includes a s = true -> includes a (p +:+ s) = true.
Proof.
  intros H. induction p as [|c p IH]; [exact H|].
  rewrite append_cons, includes_cons, IH. apply orb_true_r.
Qed.

Lemma includes_here (a b : string) : includes a (a +:+ b) = true.
Proof. apply includes_prefix, prefix_app. Qed.

Lemma includes_refl (a : string) : includes a a = true.
Proof. rewrite <- (append_nil_r a) at 2. apply includes_here. Qed.


Lemma prefix_split (a s : string) :
  String.prefix a s = true -> exists post, s = a +:+ post.
Proof.
  revert s. induction a as [|c a IH]; intros s H.
  - exists s. reflexivity.
  - destruct s as [|d s]; [discriminate H|]. rewrite prefix_cons in H.
    destruct (ascii_dec c d) as [->|]; [|discriminate H].
    destruct (IH s H) as [post ->]. exists post. reflexivity.
Qed.

(** [includes] is the substring relation. *)
Lemma includes_spec (sub s : string) :
  includes sub s = true <-> exists pre post, s = pre +:+ sub +:+ post.
Proof.
  split.
  - induction s as [|c s IH]; intros H.
    + unfold includes in H. rewrite orb_false_r in H.
      destruct (prefix_split _ _ H) as [post E]. exists "", post. exact E.
    + rewrite includes_cons in H. apply orb_true_iff in H as [H|H].
      * destruct (prefix_split _ _ H) as [post E]. exists "", post. exact E.
      * destruct (IH H) as (pre & post & ->). exists (String c pre), post.
        reflexivity.
  - intros (pre & post & ->). apply includes_app_r, includes_here.
Qed.

Lemma length_append (a b : string) :
  String.length (a +:+ b) = (String.length a + String.length b)%nat.
Proof. induction a as [|c a IH]; [reflexivity|]. rewrite append_cons. simpl. rewrite IH. reflexivity. Qed.

(** *** [keep], [all_chars], [substring 0] *)

Lemma replace_each_empty (cls : ascii -> bool) (s : string) :
  replace_each cls "" s = keep (fun c => negb (cls c)) s.
Proof.
  induction s as [|c s IH]; [reflexivity|]. simpl.
  destruct (cls c); simpl; rewrite IH; reflexivity.
Qed.

Lemma keep_ext (p q : ascii -> bool) (s : string) :
  all_chars (fun c => Bool.eqb (p c) (q c)) s = true -> keep p s = keep q s.
Proof.
  induction s as [|c s IH]; [reflexivity|]. simpl. intros H.
  apply andb_true_iff in H as [Hc Hs]. apply eqb_prop in Hc.
  rewrite Hc, (IH Hs). reflexivity.
Qed.

Lemma all_chars_impl (p q : ascii -> bool) (s : string) :
  (forall c, p c = true -> q c = true) ->
  all_chars p s = true -> all_chars q s = true.
Proof.
  intros Hpq. induction s as [|c s IH]; [reflexivity|]. simpl. intros H.
  apply andb_true_iff in H as [Hc Hs]. rewrite (Hpq _ Hc), (IH Hs). reflexivity.
Qed.

Lemma all_chars_keep (p : ascii -> bool) (s : string) :
  all_chars p (keep p s) = true.
Proof.
  induction s as [|c s IH]; [reflexivity|]. simpl.
  destruct (p c) eqn:E; simpl; [rewrite E|]; exact IH.
Qed.

Lemma length_keep (p : ascii -> bool) (s : string) :
  (String.length (keep p s) <= String.length s)%nat.
Proof.
  induction s as [|c s IH]; [reflexivity|]. simpl.
  destruct (p c); simpl; lia.
Qed.

Lemma keep_all (p : ascii -> bool) (s : string) :
  all_chars p s = true -> keep p s = s.
Proof.
  induction s as [|c s IH]; [reflexivity|]. simpl. intros H.
  apply andb_true_iff in H as [Hc Hs]. rewrite Hc, (IH Hs). reflexivity.
Qed.

Lemma keep_fixed (p : ascii -> bool) (s : string) :
  keep p s = s -> all_chars p s = true.
Proof.
  induction s as [|c s IH]; [reflexivity|]. simpl.
  destruct (p c) eqn:E; intros H.
  - injection H as H. exact (IH H).
  - pose proof (length_keep p s) as L. rewrite H in L. simpl in L. lia.
Qed.

Lemma substring_0_all_chars (p : ascii -> bool) (n : nat) (s : string) :
  all_chars p s = true -> all_chars p (substring 0 n s) = true.
Proof.
  revert n. induction s as [|c s IH]; intros [|n] H; try reflexivity.
  simpl in *. apply andb_true_iff in H as [Hc Hs].
  rewrite Hc. exact (IH n Hs).
Qed.

Lemma substring_0_length (n : nat) (s : string) :
  (String.length (substring 0 n s) <= n)%nat.
Proof.
  revert s. induction n as [|n IH]; intros [|c s]; simpl; try lia.
  specialize (IH s). lia.
Qed.

Lemma substring_0_short (n : nat) (s : string) :
  (String.length s <= n)%nat -> substring 0 n s = s.
Proof.
  revert s. induction n as [|n IH]; intros [|c s] H; simpl in *; try reflexivity; try lia.
  rewrite IH; [reflexivity | lia].
Qed.

Lemma toLowerCase_fixed (s : string) :
  all_chars (fun c => Ascii.eqb (to_lower_char c) c) s = true ->
  toLowerCase s = s.
Proof.
  induction s as [|c s IH]; [reflexivity|]. simpl. intros H.
  apply andb_true_iff in H as [Hc Hs]. apply Ascii.eqb_eq in Hc.
  rewrite Hc, (IH Hs). reflexivity.
Qed.

Lemma all_chars_toLowerCase (p : ascii -> bool) (s : string) :
  (forall c, p (to_lower_char c) = true) ->
  all_chars p (toLowerCase s) = true.
Proof.
  intros Hp. induction s as [|c s IH]; [reflexivity|]. simpl.
  rewrite Hp. exact IH.
Qed.

Lemma replace_runs_none (cls : ascii -> bool) (repl : string) (b : bool) (s : string) :
  all_chars (fun c => negb (cls c)) s = true -> replace_runs cls repl b s = s.
Proof.
  revert b. induction s as [|c s IH]; intros b H; [reflexivity|]. simpl in *.
  apply andb_true_iff in H as [Hc Hs]. apply negb_true_iff in Hc.
  rewrite Hc, (IH false Hs). reflexivity.
Qed.

End StringFacts.

(** ** Filename generation *)

Module FilenameProps.
Import Chars JsString Filename StringFacts.

Ltac by_cases_on_char c :=
  destruct c as [[] [] [] [] [] [] [] []]; vm_compute;
  first [reflexivity | discriminate | intros; first [reflexivity | discriminate]].

Lemma lowered_not_upper (c : ascii) : is_upper_az (to_lower_char c) = false.
Proof. by_cases_on_char c. Qed.

Lemma safe_is_lowered (c : ascii) :
  is_safe c = true -> Ascii.eqb (to_lower_char c) c = true.
Proof. by_cases_on_char c. Qed.

Lemma safe_stripped_iff_underscore (c : ascii) :
  is_safe c = true ->
  Bool.eqb (negb (not_alnum_space c)) (negb (is_underscore c)) = true.
Proof. by_cases_on_char c. Qed.

Lemma safe_no_underscore_not_space (c : ascii) :
  is_safe c = true -> negb (is_underscore c) = true -> negb (is_space c) = true.
Proof. by_cases_on_char c. Qed.

Lemma kept_not_space_is_safe (c : ascii) :
  negb (not_alnum_space c) = true -> is_space c = false -> is_safe c = true.
Proof. by_cases_on_char c. Qed.

Lemma underscore_is_safe : is_safe underscore = true.
Proof. reflexivity. Qed.

Lemma underscore_prefix (c : ascii) (s : string) :
  String.prefix "_" (String c s) = is_underscore c.
Proof. rewrite prefix_cons, prefix_nil. by_cases_on_char c. Qed.

(** Replacing whitespace runs leaves only safe characters when the input
    was already stripped. *)
Lemma replace_runs_safe (b : bool) (s : string) :
  all_chars (fun c => negb (not_alnum_space c)) s = true ->
  all_chars is_safe (replace_runs is_space "_" b s) = true.
Proof.
  revert b. induction s as [|c s IH]; intros b H; [reflexivity|].
  simpl in H. apply andb_true_iff in H as [Hc Hs]. simpl.
  destruct (is_space c) eqn:E.
  - destruct b; [apply IH, Hs|]. rewrite append_cons, append_nil_l. simpl.
    apply IH, Hs.
  - simpl. rewrite (kept_not_space_is_safe c Hc E). apply IH, Hs.
Qed.

Lemma safePrompt_safe (prompt : string) :
  all_chars is_safe (safePrompt prompt) = true.
Proof.
  unfold safePrompt. apply substring_0_all_chars, replace_runs_safe.
  rewrite replace_each_empty. apply all_chars_keep.
Qed.

Lemma safePrompt_length (prompt : string) :
  (String.length (safePrompt prompt) <= 50)%nat.
Proof. apply substring_0_length. Qed.

(** A second pass only deletes the underscores made by the first. *)
Lemma safePrompt_twice (prompt : string) :
  safePrompt (safePrompt prompt) =
  keep (fun c => negb (is_underscore c)) (safePrompt prompt).
Proof.
  pose proof (safePrompt_safe prompt) as Hsafe.
  pose proof (safePrompt_length prompt) as Hlen.
  set (t := safePrompt prompt) in *.
  unfold safePrompt at 1.
  rewrite (toLowerCase_fixed t)
    by (eapply all_chars_impl; [apply safe_is_lowered | exact Hsafe]).
  rewrite replace_each_empty.
  rewrite (keep_ext _ (fun c => negb (is_underscore c)) t)
    by (eapply all_chars_impl; [apply safe_stripped_iff_underscore | exact Hsafe]).
  rewrite replace_runs_none.
  - apply substring_0_short.
    pose proof (length_keep (fun c => negb (is_underscore c)) t). lia.
  - clear Hlen. induction t as [|c t IH]; [reflexivity|].
    simpl in *. apply andb_true_iff in Hsafe as [Hc Ht].
    destruct (is_underscore c) eqn:E; simpl; [apply IH, Ht|].
    rewrite (safe_no_underscore_not_space c Hc) by (rewrite E; reflexivity).
    apply IH, Ht.
Qed.

Lemma no_underscore_iff (s : string) :
  all_chars (fun c => negb (is_underscore c)) s = true <->
  includes "_" s = false.
Proof.
  induction s as [|c s IH]; [split; reflexivity|].
  rewrite includes_cons, underscore_prefix. simpl.
  rewrite andb_true_iff, orb_false_iff, negb_true_iff, IH. reflexivity.
Qed.

(** *** The specification's wording agrees with the code *)

Lemma substring_0_truncate (n : nat) (s : string) :
  substring 0 n s = Spec.truncate n s.
Proof.
  revert s. induction n as [|n IH]; intros [|c s]; try reflexivity.
  simpl. rewrite IH. reflexivity.
Qed.

Lemma replace_runs_in_run (s : string) :
  replace_runs is_space "_" true s =
  replace_runs is_space "_" false (Spec.drop_spaces s).
Proof.
  induction s as [|c s IH]; [reflexivity|]. simpl.
  destruct (is_space c) eqn:E; [exact IH|]. simpl. rewrite E. reflexivity.
Qed.

Lemma drop_spaces_length (s : string) :
  (String.length (Spec.drop_spaces s) <= String.length s)%nat.
Proof.
  induction s as [|c s IH]; [reflexivity|]. simpl.
  destruct (is_space c); simpl; lia.
Qed.

Lemma collapse_replace_runs (fuel : nat) (s : string) :
  (String.length s <= fuel)%nat ->
  Spec.collapse fuel s = replace_runs is_space "_" false s.
Proof.
  revert s. induction fuel as [|fuel IH]; intros [|c s] H; try reflexivity.
  - simpl in H. lia.
  - simpl in H. simpl. destruct (is_space c).
    + rewrite append_cons, append_nil_l, replace_runs_in_run.
      rewrite IH; [reflexivity|].
      pose proof (drop_spaces_length s). lia.
    + rewrite IH; [reflexivity | lia].
Qed.

Lemma lower_to_lower_char (c : ascii) : Spec.lower c = to_lower_char c.
Proof. by_cases_on_char c. Qed.

Lemma lowercase_toLowerCase (s : string) : Spec.lowercase s = toLowerCase s.
Proof.
  induction s as [|c s IH]; [reflexivity|]. simpl.
  rewrite lower_to_lower_char, IH. reflexivity.
Qed.

(** After lowercasing, the letters the pattern of line 96 keeps are the
    letters of the English alphabet. *)
Lemma lowered_kept_iff (c : ascii) :
  Bool.eqb (negb (not_alnum_space (to_lower_char c)))
    (Spec.is_letter Spec.ascii_letters (to_lower_char c) ||
     is_digit (to_lower_char c) || is_space (to_lower_char c)) = true.
Proof. by_cases_on_char c. Qed.

Lemma strip_lowered (s : string) :
  replace_each not_alnum_space "" (toLowerCase s) =
  Spec.strip Spec.ascii_letters (Spec.lowercase s).
Proof.
  rewrite replace_each_empty, lowercase_toLowerCase. unfold Spec.strip.
  apply keep_ext. apply all_chars_toLowerCase. exact lowered_kept_iff.
Qed.

Lemma safePrompt_sanitized (s : string) :
  safePrompt s = Spec.sanitized Spec.ascii_letters s.
Proof.
  unfold safePrompt, Spec.sanitized. rewrite strip_lowered.
  rewrite substring_0_truncate, collapse_replace_runs by reflexivity.
  reflexivity.
Qed.

Lemma timestamp_dashed (now : string) :
  replace_each is_colon_or_dot "-" now = Spec.dash_timestamp now.
Proof.
  induction now as [|c s IH]; [reflexivity|]. simpl. unfold Spec.dashed.
  destruct (is_colon_or_dot c); rewrite IH; reflexivity.
Qed.

Lemma seedStr_suffix (seed : option Z) :
  seed <> Some 0%Z -> seedStr seed = Spec.seed_suffix seed.
Proof.
  intros H. destruct seed as [n|]; [|reflexivity]. simpl.
  destruct (Z.eqb_spec n 0); congruence.
Qed.

Lemma generateImageFilename_unfold (now prompt : string) (index : Z)
    (seed : option Z) :
  generateImageFilename now prompt index seed =
    "minimax_" +:+ Spec.sanitized Spec.ascii_letters prompt +:+ seedStr seed +:+
    "_" +:+ pretty index +:+ "_" +:+ Spec.dash_timestamp now +:+ ".png".
Proof.
  unfold generateImageFilename. simpl template.
  rewrite append_nil_r, safePrompt_sanitized, timestamp_dashed. reflexivity.
Qed.

(** Away from the seed 0, and reading letters as the letters of the
    English alphabet, the filename is the one the specification words. *)
Lemma generateImageFilename_agrees (now prompt : string) (index : Z)
    (seed : option Z) :
  seed <> Some 0%Z ->
  generateImageFilename now prompt index seed =
    Spec.filename Spec.ascii_letters now prompt index seed /\
  (String.length (Spec.sanitized Spec.ascii_letters prompt) <= 50)%nat /\
  all_chars is_safe (Spec.sanitized Spec.ascii_letters prompt) = true.
Proof.
  intros Hseed. split; [|split].
  - rewrite generateImageFilename_unfold, (seedStr_suffix seed Hseed).
    reflexivity.
  - rewrite <- safePrompt_sanitized. apply safePrompt_length.
  - rewrite <- safePrompt_sanitized. apply safePrompt_safe.
Qed.

(** An accented letter is a letter, and line 96 removes it. *)
Example generateImageFilename_accented_letter :
  let e_acute := String (ascii_of_N 233) "" in
  Spec.is_letter Spec.letters (ascii_of_N 233) = true /\
  Spec.sanitized Spec.letters e_acute = e_acute /\
  safePrompt e_acute = "".
Proof. repeat split; reflexivity. Qed.

(** C4, as stated, fails: the underscore that replaces the blank of
    ["a b"] is itself stripped by a second pass. *)
Lemma safePrompt_not_idempotent :
  safePrompt "a b" = "a_b" /\ safePrompt (safePrompt "a b") = "ab" /\
  ~ (forall s : string, safePrompt (safePrompt s) = safePrompt s).
Proof.
  split; [reflexivity|]. split; [reflexivity|].
  intros H. specialize (H "a b"). vm_compute in H. discriminate H.
Qed.

(** C4, amended: applying the sanitize-and-truncate transform a second time
    deletes the underscores produced by the first application and changes
    nothing else; so the transform is idempotent on [s] exactly when its
    result on [s] contains no underscore. *)
Theorem safePrompt_idempotent_iff (s : string) :
  safePrompt (safePrompt s) =
    keep (fun c => negb (is_underscore c)) (safePrompt s) /\
  (safePrompt (safePrompt s) = safePrompt s <->
   includes "_" (safePrompt s) = false).
Proof.
  split; [apply safePrompt_twice|].
  rewrite safePrompt_twice, <- no_underscore_iff. split.
  - apply keep_fixed.
  - apply keep_all.
Qed.

(** C7 fails for the seed 0. [generateImageFilename] returns the prefix
    ["minimax_"], then the seed text lowercased, stripped, collapsed and
    cut to 50 characters, then [_ordinal_timestamp.png] with the dashed
    ISO timestamp; but the [_seed] suffix between the two is dropped when
    the seed given is the number 0, as if no seed had been given. Whatever
    is counted as a letter, the name the claim describes has [_0] there:
    it is two characters longer, and for the prompt ["A cat"] it reads
    [minimax_a_cat_0_1_...] where the code returns [minimax_a_cat_1_...]. *)
Theorem generateImageFilename_zero_seed (now prompt : string) (index : Z) :
  generateImageFilename now prompt index (Some 0%Z) =
    generateImageFilename now prompt index None /\
  generateImageFilename now prompt index (Some 0%Z) =
    "minimax_" +:+ Spec.sanitized Spec.ascii_letters prompt +:+
    "_" +:+ pretty index +:+ "_" +:+ Spec.dash_timestamp now +:+ ".png" /\
  (forall alphabet,
     Spec.filename alphabet now prompt index (Some 0%Z) =
       "minimax_" +:+ Spec.sanitized alphabet prompt +:+ "_0" +:+
       "_" +:+ pretty index +:+ "_" +:+ Spec.dash_timestamp now +:+ ".png") /\
  String.length (Spec.filename Spec.ascii_letters now prompt index (Some 0%Z)) =
    (String.length (generateImageFilename now prompt index (Some 0%Z)) + 2)%nat /\
  generateImageFilename now prompt index (Some 0%Z) <>
    Spec.filename Spec.ascii_letters now prompt index (Some 0%Z) /\
  generateImageFilename "2025-01-02T03:04:05.678Z" "A cat" 1 (Some 0%Z) =
    "minimax_a_cat_1_2025-01-02T03-04-05-678Z.png" /\
  Spec.filename Spec.ascii_letters "2025-01-02T03:04:05.678Z" "A cat" 1 (Some 0%Z) =
    "minimax_a_cat_0_1_2025-01-02T03-04-05-678Z.png" /\
  Spec.filename Spec.letters "2025-01-02T03:04:05.678Z" "A cat" 1 (Some 0%Z) =
    "minimax_a_cat_0_1_2025-01-02T03-04-05-678Z.png".
Proof.
  assert (Hlen : String.length
                   (Spec.filename Spec.ascii_letters now prompt index (Some 0%Z)) =
                 (String.length
                    (generateImageFilename now prompt index (Some 0%Z)) + 2)%nat).
  { rewrite generateImageFilename_unfold. unfold Spec.filename.
    change (Spec.seed_suffix (Some 0%Z)) with "_0".
    change (seedStr (Some 0%Z)) with "".
    rewrite append_nil_l, !length_append. simpl String.length. lia. }
  split; [reflexivity|].
  split; [rewrite generateImageFilename_unfold; reflexivity|].
  split; [intros alphabet; reflexivity|].
  split; [exact Hlen|].
  split; [intros Heq; rewrite <- Heq in Hlen; lia|].
  repeat split; reflexivity.
Qed.

End FilenameProps.

(** ** Downloading one image *)

Module DownloadProps.
Import Chars JsString Js Fal Sys Download Tools.

Lemma gateway_calls_app (a b : list Event) :
  gateway_calls (a ++ b) = gateway_calls a ++ gateway_calls b.
Proof. apply omap_app. Qed.

Lemma download_attempts_app (a b : list Event) :
  download_attempts (a ++ b) = download_attempts a ++ download_attempts b.
Proof. apply omap_app. Qed.

Lemma unlinks_app (a b : list Event) :
  unlinks (a ++ b) = unlinks a ++ unlinks b.
Proof. apply omap_app. Qed.

Ltac run_download :=
  unfold downloadImage, existsSync, mkdirSync, createWriteStream, pipe,
    unlink, bind, get_state, modify, throw, ret, uncaught, pending;
  cbn [fst snd].

Ltac observe_trace :=
  cbn [trace files dirs downloads clock_reads falConfigured emit with_files
       with_dirs count_download];
  rewrite ?gateway_calls_app, ?download_attempts_app, ?unlinks_app;
  cbn [gateway_calls download_attempts unlinks omap list_omap];
  rewrite ?app_nil_r, <- ?app_assoc.

(** What one [downloadImage] call returns and leaves behind. *)
Lemma downloadImage_spec (w : World) (url fname : string) (s : State) :
  exists s',
    downloadImage w url fname s =
      (download_result w (downloads s) url fname, s') /\
    downloads s' = S (downloads s) /\
    clock_reads s' = clock_reads s /\
    falConfigured s' = falConfigured s /\
    gateway_calls (trace s') = gateway_calls (trace s) /\
    download_attempts (trace s') = download_attempts (trace s) ++ [url] /\
    unlinks (trace s') =
      unlinks (trace s) ++
      (if write_fails w (downloads s) url then [local_path w fname] else []).
Proof.
  run_download. unfold download_result, write_fails.
  destruct (parse_url w url) as [secure|].
  2:{ eexists. split; [reflexivity|]. observe_trace. repeat split; reflexivity. }
  destruct (bool_decide _);
    (destruct (http_get w (downloads s) url)
       as [err|err|code body [[n err]|]|received [err|]];
     try destruct (code =? 200)%Z);
    cbn [negb]; eexists; (split; [reflexivity|]); observe_trace;
    repeat split; reflexivity.
Qed.


(** After a write error the partial file is gone. *)
Lemma downloadImage_write_error_file (w : World) (url fname : string)
    (s : State) (secure : bool) (body : string) (n : nat) (err : jserr) :
  parse_url w url = Some secure ->
  http_get w (downloads s) url = Response 200 body (Some (n, err)) ->
  files (downloadImage w url fname s).2 !! local_path w fname = None.
Proof.
  intros Hurl Hget. run_download. rewrite Hurl, Hget.
  destruct (bool_decide _); cbn; apply lookup_delete_eq.
Qed.



(** A write error during a 200 response: the promise rejects with the
    stream's error and the partial file is unlinked. *)
Example downloadImage_write_error :
  let run := downloadImage
               (Examples.world (Some "key") Examples.write_breaks None
                  (Resolved Examples.in_progress))
               "https://cdn.example/a.png" "a.png"
               (startup Examples.configured) in
  run.1 = Throw (JsError "ENOSPC") /\
  files run.2 !! "/srv/images/a.png" = None /\
  trace run.2 =
    [EvDownload "https://cdn.example/a.png" "a.png";
     EvFs (Mkdir "/srv/images");
     EvFs (CreateWriteStream "/srv/images/a.png");
     EvHttpGet true "https://cdn.example/a.png";
     EvFs (Pipe "/srv/images/a.png" "PN");
     EvFs (Unlink "/srv/images/a.png")].
Proof. vm_compute. repeat split; reflexivity. Qed.

(** A write stream that fails to open: its ['error'] event finds no
    listener, nothing is created and the promise is never settled. *)
Example downloadImage_open_error :
  let run := downloadImage MoreExamples.read_only
               "https://cdn.example/a.png" "a.png"
               (startup MoreExamples.read_only) in
  run.1 = Uncaught (JsError "EACCES: permission denied, open") /\
  files run.2 !! "/srv/images/a.png" = None /\
  trace run.2 =
    [EvDownload "https://cdn.example/a.png" "a.png";
     EvFs (Mkdir "/srv/images");
     EvFs (CreateWriteStream "/srv/images/a.png");
     EvHttpGet true "https://cdn.example/a.png"].
Proof. vm_compute. repeat split; reflexivity. Qed.

(** A 200 response that is cut off: what arrived is in the file and the
    promise stays pending. *)
Example downloadImage_ends_early :
  let run := downloadImage MoreExamples.cut_off
               "https://cdn.example/a.png" "a.png"
               (startup MoreExamples.cut_off) in
  run.1 = Pending /\
  files run.2 !! "/srv/images/a.png" = Some "PN" /\
  unlinks (trace run.2) = [].
Proof. vm_compute. repeat split; reflexivity. Qed.

(** A download that settles resolves or rejects; one that does not ends
    the same way whatever the file is called. *)
Lemma download_settles_result (w : World) (k : nat) (url fname : string) :
  download_settles w k url = true ->
  (exists path, download_result w k url fname = Ok path) \/
  (exists e, download_result w k url fname = Throw e).
Proof.
  unfold download_settles, download_result.
  destruct (parse_url w url) as [secure|]; [|eauto].
  destruct (http_get w k url) as [e|e|code body [[n e]|]|received [e|]];
    try discriminate; intros _; try destruct (negb (code =? 200)%Z); eauto.
Qed.

Lemma download_unsettled_result (w : World) (k : nat) (url : string) :
  download_settles w k url = false ->
  (exists e, forall fname, download_result w k url fname = Uncaught e) \/
  (forall fname, download_result w k url fname = Pending).
Proof.
  unfold download_settles, download_result.
  destruct (parse_url w url) as [secure|]; [|discriminate].
  destruct (http_get w k url) as [e|e|code body we|received [e|]];
    try discriminate; intros _; eauto.
Qed.

End DownloadProps.

(** ** The download loop *)

Module LoopProps.
Import Chars JsString Filename Js Fal Sys Download Materializer Tools.
Import DownloadProps.

Lemma call_generateImageFilename_string (w : World) (p : string) (idx : Z)
    (seed : option Z) (s : State) :
  call_generateImageFilename w (Some (JStr p)) idx seed s =
    (Ok (generateImageFilename (now w (clock_reads s)) p idx seed), tick_clock s).
Proof. reflexivity. Qed.

(** One iteration: the entry is recorded whether the download resolves or
    rejects; a download that does not settle ends the iteration without an
    entry. *)
Lemma loop_body (w : World) (image : Image) (i : nat) (fname : string)
    (s : State) :
  exists s',
    try_catch
      (path <- downloadImage w (img_url image) fname ;;
       ret (mkDownloaded image (Some path) i fname))
      (fun _ => ret (mkDownloaded image None i fname)) s =
    (match download_result w (downloads s) (img_url image) fname with
     | Ok path => Ok (mkDownloaded image (Some path) i fname)
     | Throw _ => Ok (mkDownloaded image None i fname)
     | Uncaught e => Uncaught e
     | Pending => Pending
     end, s') /\
    downloads s' = S (downloads s) /\
    clock_reads s' = clock_reads s /\
    falConfigured s' = falConfigured s /\
    gateway_calls (trace s') = gateway_calls (trace s) /\
    download_attempts (trace s') = download_attempts (trace s) ++ [img_url image].
Proof.
  destruct (downloadImage_spec w (img_url image) fname s)
    as (s' & Hrun & Hd & Hc & Hf & Hg & Ha & _).
  exists s'. unfold try_catch, bind. rewrite Hrun.
  split; [|auto].
  destruct (download_result w (downloads s) (img_url image) fname); reflexivity.
Qed.

Lemma downloads_settle_lookup (w : World) (imgs : list Image) :
  forall (d i : nat) (image : Image),
    downloads_settle w d imgs = true ->
    imgs !! i = Some image ->
    download_settles w (d + i) (img_url image) = true.
Proof.
  induction imgs as [|x rest IH]; intros d i image H Hi; [discriminate Hi|].
  cbn [downloads_settle] in H. apply andb_true_iff in H as [Hx Hrest].
  destruct i as [|i].
  - injection Hi as ->. rewrite Nat.add_0_r. exact Hx.
  - rewrite <- Nat.add_succ_comm. apply (IH (S d) i image Hrest Hi).
Qed.

(** A loop in which some download does not settle has a first such
    download. *)
Lemma downloads_settle_split (w : World) (imgs : list Image) :
  forall d : nat,
    downloads_settle w d imgs = false ->
    exists (pre : list Image) (x : Image) (post : list Image),
      imgs = pre ++ x :: post /\
      downloads_settle w d pre = true /\
      download_settles w (d + length pre) (img_url x) = false.
Proof.
  induction imgs as [|image rest IH]; intros d H; [discriminate H|].
  cbn [downloads_settle] in H.
  destruct (download_settles w d (img_url image)) eqn:E.
  - destruct (IH (S d) H) as (pre & x & post & -> & Hpre & Hx).
    exists (image :: pre), x, post. split; [reflexivity|]. split.
    + cbn [downloads_settle]. rewrite E. exact Hpre.
    + cbn [length]. rewrite <- Nat.add_succ_comm. exact Hx.
  - exists [], image, rest. split; [reflexivity|]. split; [reflexivity|].
    cbn [length]. rewrite Nat.add_0_r. exact E.
Qed.

Section Loop.
Context (w : World) (p : string) (seed : option Z).

(** The loop on a string prompt, when every download settles: it runs to
    the end and records one entry per image. *)
Lemma download_loop_spec (imgs : list Image) :
  forall (i : nat) (acc : list Downloaded) (s : State),
  downloads_settle w (downloads s) imgs = true ->
  exists s',
    download_loop w (Some (JStr p)) seed imgs i acc s =
      (Ok (acc ++ entries w p seed (clock_reads s) (downloads s) i imgs), s') /\
    falConfigured s' = falConfigured s /\
    gateway_calls (trace s') = gateway_calls (trace s) /\
    download_attempts (trace s') =
      download_attempts (trace s) ++ map img_url imgs.
Proof.
  induction imgs as [|image rest IH]; intros i acc s Hsettle.
  - exists s. cbn. rewrite !app_nil_r. auto.
  - cbn [downloads_settle] in Hsettle.
    apply andb_true_iff in Hsettle as [Hfirst Hrest].
    cbn [download_loop]. unfold bind at 1.
    rewrite call_generateImageFilename_string.
    set (fname := generateImageFilename _ _ _ _).
    destruct (loop_body w image i fname (tick_clock s))
      as (s1 & Hrun & Hd & Hc & Hf & Hg & Ha).
    unfold bind at 1. rewrite Hrun.
    assert (Hentry :
      match download_result w (downloads (tick_clock s)) (img_url image) fname with
      | Ok path => Ok (mkDownloaded image (Some path) i fname)
      | Throw _ => Ok (mkDownloaded image None i fname)
      | Uncaught e => Uncaught e
      | Pending => Pending
      end = Ok (entry w p seed (clock_reads s) (downloads s) i image)).
    { unfold entry. fold fname. cbn [downloads tick_clock].
      destruct (download_settles_result w (downloads s) (img_url image) fname
                  Hfirst) as [[path ->] | [e ->]]; reflexivity. }
    rewrite Hentry.
    destruct (IH (S i) (acc ++ [entry w p seed (clock_reads s) (downloads s) i image])
                s1) as (s' & Hloop & Hf' & Hg' & Ha').
    { rewrite Hd. exact Hrest. }
    exists s'. rewrite Hloop, Hd, Hc. cbn [clock_reads downloads tick_clock].
    split; [|split; [|split]].
    + rewrite <- app_assoc. reflexivity.
    + rewrite Hf', Hf. reflexivity.
    + rewrite Hg', Hg. reflexivity.
    + rewrite Ha', Ha. cbn [trace tick_clock map]. rewrite <- app_assoc. reflexivity.
Qed.

(** The loop stops at the first download that does not settle: it ends as
    that download does, and the images after it are never attempted. *)
Lemma download_loop_stops (pre : list Image) (x : Image) (post : list Image) :
  forall (i : nat) (acc : list Downloaded) (s : State),
  downloads_settle w (downloads s) pre = true ->
  download_settles w (downloads s + length pre) (img_url x) = false ->
  exists (r : res (list Downloaded)) (s' : State),
    download_loop w (Some (JStr p)) seed (pre ++ x :: post) i acc s = (r, s') /\
    (forall fname,
       unsettled
         (download_result w (downloads s + length pre) (img_url x) fname) r) /\
    falConfigured s' = falConfigured s /\
    gateway_calls (trace s') = gateway_calls (trace s) /\
    download_attempts (trace s') =
      download_attempts (trace s) ++ map img_url pre ++ [img_url x].
Proof.
  induction pre as [|image rest IH]; intros i acc s Hsettle Hstuck.
  - cbn [app length] in *. rewrite Nat.add_0_r in *.
    cbn [download_loop]. unfold bind at 1.
    rewrite call_generateImageFilename_string.
    set (fname := generateImageFilename _ _ _ _).
    destruct (loop_body w x i fname (tick_clock s))
      as (s1 & Hrun & Hd & Hc & Hf & Hg & Ha).
    unfold bind at 1. rewrite Hrun. cbn [downloads tick_clock].
    destruct (download_unsettled_result w (downloads s) (img_url x) Hstuck)
      as [[e He] | He]; rewrite (He fname).
    + exists (Uncaught e), s1. split; [reflexivity|].
      split; [intros f; rewrite (He f); reflexivity|]. auto.
    + exists Pending, s1. split; [reflexivity|].
      split; [intros f; rewrite (He f); exact I|]. auto.
  - cbn [downloads_settle] in Hsettle.
    apply andb_true_iff in Hsettle as [Hfirst Hrest].
    cbn [app download_loop]. unfold bind at 1.
    rewrite call_generateImageFilename_string.
    set (fname := generateImageFilename _ _ _ _).
    destruct (loop_body w image i fname (tick_clock s))
      as (s1 & Hrun & Hd & Hc & Hf & Hg & Ha).
    unfold bind at 1. rewrite Hrun. cbn [downloads tick_clock] in *.
    destruct (IH (S i)
                (acc ++ [mkDownloaded image
                           (match download_result w (downloads s) (img_url image)
                                    fname with
                            | Ok path => Some path
                            | _ => None
                            end) i fname]) s1)
      as (r & s' & Hloop & Hr & Hf' & Hg' & Ha').
    { rewrite Hd. exact Hrest. }
    { rewrite Hd. cbn [length] in Hstuck.
      rewrite <- Nat.add_succ_comm in Hstuck. exact Hstuck. }
    exists r, s'. split; [|split; [|split; [|split]]].
    + destruct (download_settles_result w (downloads s) (img_url image) fname
                  Hfirst) as [[path E] | [e E]];
        rewrite E in Hloop |- *; exact Hloop.
    + intros f. specialize (Hr f). rewrite Hd in Hr. cbn [length].
      rewrite <- Nat.add_succ_comm. exact Hr.
    + rewrite Hf', Hf. reflexivity.
    + rewrite Hg', Hg. reflexivity.
    + rewrite Ha', Ha. cbn [trace tick_clock map]. rewrite <- !app_assoc.
      reflexivity.
Qed.

Lemma entries_length (imgs : list Image) :
  forall c d i, length (entries w p seed c d i imgs) = length imgs.
Proof.
  induction imgs as [|image rest IH]; intros c d i; [reflexivity|].
  cbn. rewrite IH. reflexivity.
Qed.

Lemma entries_lookup (imgs : list Image) :
  forall (c d i j : nat) (image : Image),
    imgs !! j = Some image ->
    entries w p seed c d i imgs !! j =
      Some (entry w p seed (c + j) (d + j) (i + j) image).
Proof.
  induction imgs as [|x rest IH]; intros c d i j image H; [discriminate H|].
  destruct j as [|j].
  - injection H as ->. cbn. rewrite !Nat.add_0_r. reflexivity.
  - change ((x :: rest) !! S j) with (rest !! j) in H.
    change (entries w p seed c d i (x :: rest) !! S j)
      with (entries w p seed (S c) (S d) (S i) rest !! j).
    rewrite (IH (S c) (S d) (S i) j image H).
    rewrite <- !Nat.add_succ_comm. reflexivity.
Qed.

Lemma entries_lookup_none (imgs : list Image) (c d i j : nat) :
  imgs !! j = None -> entries w p seed c d i imgs !! j = None.
Proof.
  intros H. apply lookup_ge_None. rewrite entries_length.
  apply lookup_ge_None, H.
Qed.

End Loop.

(** An entry depends on the world through one clock reading and one
    download only. *)
Lemma entry_other_http (w : World) (h : nat -> string -> HttpOutcome)
    (p : string) (seed : option Z) (c d i : nat) (image : Image) :
  (forall u, h d u = http_get w d u) ->
  entry (with_http w h) p seed c d i image = entry w p seed c d i image.
Proof.
  intros H. unfold entry, download_result, local_path. cbn. rewrite H.
  reflexivity.
Qed.

End LoopProps.

(** ** The tool handlers *)

Module HandlerProps.
Import Chars JsString Filename Js Fal Sys Download Materializer Tools.
Import StringFacts DownloadProps LoopProps.

(** A [try]/[catch] whose handler returns rejects nothing. *)
Lemma try_catch_never_throws {A} (body : M A) (f : jserr -> A) (s : State)
    (e : jserr) (s' : State) :
  try_catch body (fun e => ret (f e)) s <> (Throw e, s').
Proof.
  unfold try_catch, ret. destruct (body s) as [[a|e0|e0|] s1]; discriminate.
Qed.

Lemma handler_unconfigured (w : World) (t : Tool) (args : gmap string jsval)
    (s : State) :
  falConfigured s = false -> handler w t args s = (Ok not_configured, s).
Proof.
  intros H. destruct t; cbn [handler];
    unfold minimax_generate, minimax_generate_queue, minimax_queue_status,
      minimax_queue_result, bind, get_state;
    rewrite H; reflexivity.
Qed.

(** No handler rejects: whatever is thrown inside the [try] reaches the
    [catch] block, which returns. *)
Lemma handler_never_rejects (w : World) (t : Tool) (args : gmap string jsval)
    (s : State) (e : jserr) (s' : State) :
  handler w t args s <> (Throw e, s').
Proof.
  destruct (falConfigured s) eqn:H.
  - destruct t; cbn [handler];
      unfold minimax_generate, minimax_generate_queue, minimax_queue_status,
        minimax_queue_result, bind at 1, get_state;
      rewrite H; cbn [negb]; cbv iota; apply try_catch_never_throws.
  - rewrite handler_unconfigured by exact H. discriminate.
Qed.

(** The two tools that download nothing always answer. *)
Lemma queue_tools_return (w : World) (t : Tool) (args : gmap string jsval)
    (s : State) :
  t = GenerateQueue \/ t = QueueStatusTool ->
  exists r s', handler w t args s = (Ok r, s').
Proof.
  intros Ht. destruct (falConfigured s) eqn:H.
  - destruct Ht as [-> | ->]; cbn [handler];
      unfold minimax_generate_queue, minimax_queue_status, bind at 1, get_state;
      rewrite H; cbn [negb]; cbv iota;
      unfold try_catch, bind, modify, await.
    + destruct (fal_queue_submit w _ _); eauto.
    + destruct (fal_queue_status w _ _); eauto.
  - rewrite handler_unconfigured by exact H. eauto.
Qed.

Lemma unsettled_inv {A B} (a : res A) (r : res B) :
  unsettled a r ->
  (exists e, a = Uncaught e /\ r = Uncaught e) \/ (a = Pending /\ r = Pending).
Proof.
  destruct a as [x|e|e|], r as [y|e'|e'|]; cbn; try contradiction.
  - intros ->. eauto.
  - auto.
Qed.

Lemma open_error_unsettled (w : World) (k : nat) (url : string)
    (secure : bool) (e : jserr) :
  parse_url w url = Some secure ->
  http_get w k url = OpenError e ->
  download_settles w k url = false /\
  forall fname, download_result w k url fname = Uncaught e.
Proof.
  intros Hurl Hget. unfold download_settles, download_result.
  rewrite Hurl, Hget. auto.
Qed.

Lemma minimax_generate_success (w : World) (args : gmap string jsval)
    (s : State) (p : string) (result : Result) :
  falConfigured s = true ->
  args !! "prompt" = Some (JStr p) ->
  fal_subscribe w (generate_input args) = Resolved result ->
  downloads_settle w (downloads s) (images (data result)) = true ->
  let s0 := emit (EvGateway (Subscribe MODEL (generate_input args))) s in
  let ds := entries w p (seed (data result)) (clock_reads s) (downloads s) 0
              (images (data result)) in
  exists s',
    download_loop w (Some (JStr p)) (seed (data result))
      (images (data result)) 0 [] s0 = (Ok ds, s') /\
    minimax_generate w args s = (Ok (generate_response args result ds), s') /\
    download_attempts (trace s') =
      download_attempts (trace s) ++ map img_url (images (data result)) /\
    gateway_calls (trace s') =
      gateway_calls (trace s) ++ [Subscribe MODEL (generate_input args)].
Proof.
  intros Hconf Hprompt Hgw Hsettle s0 ds.
  destruct (download_loop_spec w p (seed (data result)) (images (data result))
              0 [] s0 Hsettle) as (s' & Hloop & _ & Hg & Ha).
  exists s'. split; [exact Hloop|]. split; [|split].
  - unfold minimax_generate, bind at 1, get_state. rewrite Hconf.
    cbn [negb]. cbv iota.
    unfold try_catch, bind, modify, await. fold s0. rewrite Hgw, Hprompt.
    rewrite Hloop. unfold generate_response. rewrite Hprompt. reflexivity.
  - rewrite Ha. unfold s0. cbn [trace emit]. rewrite download_attempts_app.
    cbn. rewrite app_nil_r. reflexivity.
  - rewrite Hg. unfold s0. cbn [trace emit]. rewrite gateway_calls_app.
    reflexivity.
Qed.

(** [minimax_generate] ends as the first download that does not settle:
    the [catch] block sees nothing and the later images are not
    attempted. *)
Lemma minimax_generate_stops (w : World) (args : gmap string jsval)
    (s : State) (p : string) (result : Result) (pre : list Image) (x : Image)
    (post : list Image) :
  falConfigured s = true ->
  args !! "prompt" = Some (JStr p) ->
  fal_subscribe w (generate_input args) = Resolved result ->
  images (data result) = pre ++ x :: post ->
  downloads_settle w (downloads s) pre = true ->
  download_settles w (downloads s + length pre) (img_url x) = false ->
  exists (r : res ToolResponse) (s' : State),
    minimax_generate w args s = (r, s') /\
    (forall fname,
       unsettled
         (download_result w (downloads s + length pre) (img_url x) fname) r) /\
    download_attempts (trace s') =
      download_attempts (trace s) ++ map img_url pre ++ [img_url x] /\
    gateway_calls (trace s') =
      gateway_calls (trace s) ++ [Subscribe MODEL (generate_input args)].
Proof.
  intros Hconf Hprompt Hgw Himgs Hsettle Hstuck.
  set (s0 := emit (EvGateway (Subscribe MODEL (generate_input args))) s).
  destruct (download_loop_stops w p (seed (data result)) pre x post 0 [] s0
              Hsettle Hstuck) as (r & s' & Hloop & Hr & _ & Hg & Ha).
  assert (Hrun : forall r' : res ToolResponse,
            match r with
            | Uncaught e => r' = Uncaught e
            | Pending => r' = Pending
            | _ => False
            end -> minimax_generate w args s = (r', s')).
  { intros r' Hr'. unfold minimax_generate, bind at 1, get_state.
    rewrite Hconf. cbn [negb]. cbv iota.
    unfold try_catch, bind, modify, await. fold s0. rewrite Hgw, Hprompt, Himgs.
    rewrite Hloop. destruct r; try contradiction; rewrite Hr'; reflexivity. }
  assert (Htrace :
    download_attempts (trace s') =
      download_attempts (trace s) ++ map img_url pre ++ [img_url x] /\
    gateway_calls (trace s') =
      gateway_calls (trace s) ++ [Subscribe MODEL (generate_input args)]).
  { split.
    - rewrite Ha. unfold s0. cbn [trace emit]. rewrite download_attempts_app.
      cbn. rewrite app_nil_r. reflexivity.
    - rewrite Hg. unfold s0. cbn [trace emit]. rewrite gateway_calls_app.
      reflexivity. }
  destruct (unsettled_inv _ _ (Hr "")) as [(e & _ & ->) | (_ & ->)].
  - exists (Uncaught e), s'. split; [apply Hrun; reflexivity|].
    split; [|exact Htrace].
    intros f. specialize (Hr f).
    destruct (download_result _ _ _ _); exact Hr.
  - exists Pending, s'. split; [apply Hrun; reflexivity|].
    split; [|exact Htrace].
    intros f. specialize (Hr f).
    destruct (download_result _ _ _ _); exact Hr.
Qed.


(** The same for [minimax_queue_result], whose naming key is always a
    string. *)
Lemma minimax_queue_result_stops (w : World) (args : gmap string jsval)
    (s : State) (result : Result) (pre : list Image) (x : Image)
    (post : list Image) :
  falConfigured s = true ->
  fal_queue_result w (args !! "request_id") = Resolved result ->
  images (data result) = pre ++ x :: post ->
  downloads_settle w (downloads s) pre = true ->
  download_settles w (downloads s + length pre) (img_url x) = false ->
  exists (r : res ToolResponse) (s' : State),
    minimax_queue_result w args s = (r, s') /\
    (forall fname,
       unsettled
         (download_result w (downloads s + length pre) (img_url x) fname) r) /\
    download_attempts (trace s') =
      download_attempts (trace s) ++ map img_url pre ++ [img_url x].
Proof.
  intros Hconf Hgw Himgs Hsettle Hstuck.
  set (s0 := emit (EvGateway (QueueResult MODEL (args !! "request_id"))) s).
  destruct (download_loop_stops w
              ("queue_result_" +:+ ToString (args !! "request_id"))
              (seed (data result)) pre x post 0 [] s0
              Hsettle Hstuck) as (r & s' & Hloop & Hr & _ & _ & Ha).
  assert (Hrun : forall r' : res ToolResponse,
            match r with
            | Uncaught e => r' = Uncaught e
            | Pending => r' = Pending
            | _ => False
            end -> minimax_queue_result w args s = (r', s')).
  { intros r' Hr'. unfold minimax_queue_result, bind at 1, get_state.
    rewrite Hconf. cbn [negb]. cbv iota.
    unfold try_catch, bind, modify, await. fold s0. rewrite Hgw, Himgs.
    rewrite Hloop. destruct r; try contradiction; rewrite Hr'; reflexivity. }
  assert (Htrace :
    download_attempts (trace s') =
      download_attempts (trace s) ++ map img_url pre ++ [img_url x]).
  { rewrite Ha. unfold s0. cbn [trace emit]. rewrite download_attempts_app.
    cbn. rewrite app_nil_r. reflexivity. }
  destruct (unsettled_inv _ _ (Hr "")) as [(e & _ & ->) | (_ & ->)].
  - exists (Uncaught e), s'. split; [apply Hrun; reflexivity|].
    split; [|exact Htrace].
    intros f. specialize (Hr f).
    destruct (download_result _ _ _ _); exact Hr.
  - exists Pending, s'. split; [apply Hrun; reflexivity|].
    split; [|exact Htrace].
    intros f. specialize (Hr f).
    destruct (download_result _ _ _ _); exact Hr.
Qed.

Lemma entry_fields (w : World) (p : string) (seed : option Z) (c d i : nat)
    (image : Image) :
  download_settles w d (img_url image) = true ->
  let e := entry w p seed c d i image in
  d_url e = img_url image /\
  index e = (Z.of_nat i + 1)%Z /\
  (localPath e = None <->
   exists err, download_result w d (img_url image) (filename e) = Throw err).
Proof.
  intros Hsettle. unfold entry.
  cbn [d_url index localPath filename mkDownloaded].
  split; [reflexivity|]. split; [reflexivity|].
  destruct (download_settles_result w d (img_url image)
              (generateImageFilename (now w c) p (Z.of_nat i + 1) seed) Hsettle)
    as [[path ->] | [err ->]]; split.
  - discriminate.
  - intros [err H]. discriminate H.
  - eauto.
  - reflexivity.
Qed.

(** Failures that reject are isolated. When every download of the call
    settles, the loop of [minimax_generate] records exactly [n] entries, in
    input order; entry [i] carries the [i]-th URL and the ordinal [i + 1],
    and its local path is null exactly when download [i] rejected. Every
    image is attempted, the handler returns a response without the error
    flag, and changing the outcome of download [i] alone, to another one
    that settles, changes no entry [j <> i]. *)
Lemma generate_isolation_when_settled (w : World) (args : gmap string jsval)
    (s : State) (p : string) (result : Result) :
  falConfigured s = true ->
  args !! "prompt" = Some (JStr p) ->
  fal_subscribe w (generate_input args) = Resolved result ->
  downloads_settle w (downloads s) (images (data result)) = true ->
  let imgs := images (data result) in
  let s0 := emit (EvGateway (Subscribe MODEL (generate_input args))) s in
  exists (ds : list Downloaded) (s' : State),
    download_loop w (Some (JStr p)) (seed (data result)) imgs 0 [] s0 =
      (Ok ds, s') /\
    minimax_generate w args s = (Ok (generate_response args result ds), s') /\
    isError (generate_response args result ds) = false /\
    length ds = length imgs /\
    (forall (i : nat) (image : Image),
       imgs !! i = Some image ->
       exists d, ds !! i = Some d /\
         d_url d = img_url image /\
         index d = (Z.of_nat i + 1)%Z /\
         (localPath d = None <->
          exists err,
            download_result w (downloads s + i) (img_url image) (filename d) =
              Throw err)) /\
    download_attempts (trace s') =
      download_attempts (trace s) ++ map img_url imgs /\
    (forall (h : nat -> string -> HttpOutcome) (i : nat),
       (forall k u, k <> (downloads s + i)%nat -> h k u = http_get w k u) ->
       downloads_settle (with_http w h) (downloads s) imgs = true ->
       exists (ds' : list Downloaded) (s'' : State),
         minimax_generate (with_http w h) args s =
           (Ok (generate_response args result ds'), s'') /\
         length ds' = length imgs /\
         (forall j, j <> i -> ds' !! j = ds !! j) /\
         download_attempts (trace s'') =
           download_attempts (trace s) ++ map img_url imgs).
Proof.
  intros Hconf Hprompt Hgw Hsettle imgs s0.
  destruct (minimax_generate_success w args s p result Hconf Hprompt Hgw Hsettle)
    as (s' & Hloop & Hrun & Ha & _).
  eexists _, s'. split; [exact Hloop|]. split; [exact Hrun|].
  split; [reflexivity|]. split; [apply entries_length|].
  split; [|split; [exact Ha|]].
  - intros i image Hi. eexists. split; [apply entries_lookup, Hi|].
    apply entry_fields.
    apply (downloads_settle_lookup w imgs _ _ _ Hsettle Hi).
  - intros h i Hh Hsettle'.
    destruct (minimax_generate_success (with_http w h) args s p result
                Hconf Hprompt Hgw Hsettle') as (s'' & _ & Hrun' & Ha' & _).
    eexists _, s''. split; [exact Hrun'|]. split; [apply entries_length|].
    split; [|exact Ha'].
    intros j Hj. destruct (imgs !! j) as [image|] eqn:E.
    + rewrite !(entries_lookup _ _ _ _ _ _ _ _ _ E). f_equal.
      apply entry_other_http. intros u. apply Hh. lia.
    + rewrite !entries_lookup_none by exact E. reflexivity.
Qed.

(** Isolation on two images whose first download is answered with 404:
    two entries, the first without local path, and a response without the
    error flag. *)
Example generate_isolation_first_404 :
  exists (ds : list Downloaded) (s' : State),
    minimax_generate Examples.configured Examples.test_args
      (startup Examples.configured) =
      (Ok (generate_response Examples.test_args (Examples.two_images None) ds), s') /\
    length ds = 2%nat /\
    (exists d, ds !! 0%nat = Some d /\ localPath d = None) /\
    download_attempts (trace s') =
      ["https://cdn.example/a.png"; "https://cdn.example/b.png"].
Proof.
  destruct (generate_isolation_when_settled Examples.configured
              Examples.test_args (startup Examples.configured) "test"
              (Examples.two_images None) eq_refl eq_refl eq_refl eq_refl)
    as (ds & s' & Hloop & Hrun & _ & Hlen & Hentry & Ha & _).
  exists ds, s'. split; [exact Hrun|]. split; [exact Hlen|]. split.
  - destruct (Hentry 0%nat _ eq_refl) as (d & Hd & _ & _ & Hnull).
    exists d. split; [exact Hd|]. apply Hnull. eexists. reflexivity.
  - exact Ha.
Qed.

(** C1 fails when a write stream cannot be opened. The gateway has
    returned its images, the downloads before image [x] have settled, and
    the stream for [x] fails to open. Its ['error'] event finds no
    listener, since line 79 attaches one only once a 200 response has
    arrived: the exception is uncaught, [minimax_generate] returns no
    response at all, and the images after [x] are never attempted. *)
Theorem generate_open_failure_not_isolated (w : World)
    (args : gmap string jsval) (s : State) (p : string) (result : Result)
    (pre : list Image) (x : Image) (post : list Image) (secure : bool)
    (e : jserr) :
  falConfigured s = true ->
  args !! "prompt" = Some (JStr p) ->
  fal_subscribe w (generate_input args) = Resolved result ->
  images (data result) = pre ++ x :: post ->
  downloads_settle w (downloads s) pre = true ->
  parse_url w (img_url x) = Some secure ->
  http_get w (downloads s + length pre) (img_url x) = OpenError e ->
  exists s',
    minimax_generate w args s = (Uncaught e, s') /\
    (forall (r : ToolResponse) (s'' : State),
       minimax_generate w args s <> (Ok r, s'')) /\
    download_attempts (trace s') =
      download_attempts (trace s) ++ map img_url pre ++ [img_url x].
Proof.
  intros Hconf Hprompt Hgw Himgs Hsettle Hurl Hget.
  destruct (open_error_unsettled w _ _ _ _ Hurl Hget) as [Hstuck Hres].
  destruct (minimax_generate_stops w args s p result pre x post
              Hconf Hprompt Hgw Himgs Hsettle Hstuck)
    as (r & s' & Hrun & Hr & Ha & _).
  specialize (Hr ""). rewrite Hres in Hr.
  destruct r as [y|e'|e'|]; cbn in Hr; try contradiction. subst e'.
  exists s'. split; [exact Hrun|]. split; [|exact Ha].
  intros r s''. rewrite Hrun. discriminate.
Qed.

(** C1 on two images, when the first write stream cannot be opened: no
    response, and the second image is not attempted. *)
Lemma generate_open_failure_not_isolated_witness :
  exists s',
    minimax_generate MoreExamples.read_only Examples.test_args
      (startup MoreExamples.read_only) =
      (Uncaught (JsError "EACCES: permission denied, open"), s') /\
    download_attempts (trace s') = ["https://cdn.example/a.png"].
Proof.
  destruct (generate_open_failure_not_isolated MoreExamples.read_only
              Examples.test_args (startup MoreExamples.read_only) "test"
              (Examples.two_images None) []
              (Examples.image "https://cdn.example/a.png")
              [Examples.image "https://cdn.example/b.png"] true
              (JsError "EACCES: permission denied, open")
              eq_refl eq_refl eq_refl eq_refl eq_refl eq_refl eq_refl)
    as (s' & Hrun & _ & Ha).
  exists s'. split; [exact Hrun | exact Ha].
Defined.

Lemma serve_unconfigured (w : World) (calls : list (Tool * gmap string jsval))
    (s : State) :
  falConfigured s = false ->
  serve w calls s = (Ok (map (fun _ => not_configured) calls), s).
Proof.
  intros H. induction calls as [|[t args] rest IH]; [reflexivity|].
  cbn [serve map]. rewrite handler_unconfigured by exact H.
  unfold bind at 1. rewrite IH. reflexivity.
Qed.

(** C2: when the credential variable is absent at start-up, the flag is
    false from the start; with the flag false every handler returns the
    error-flagged response and leaves the state, hence the trace of gateway
    calls, untouched; so every call of a process lifetime gets that same
    response and no gateway call is ever made. *)
Theorem missing_credential_short_circuits (w : World) :
  env_FAL_KEY w = None ->
  falConfigured (startup w) = false /\
  isError not_configured = true /\
  (forall (t : Tool) (args : gmap string jsval) (s : State),
     falConfigured s = false -> handler w t args s = (Ok not_configured, s)) /\
  (forall calls : list (Tool * gmap string jsval),
     exists s',
       serve w calls (startup w) =
         (Ok (map (fun _ => not_configured) calls), s') /\
       gateway_calls (trace s') = [] /\
       trace s' = [] /\
       falConfigured s' = false).
Proof.
  intros Henv.
  assert (Hflag : falConfigured (startup w) = false)
    by (unfold startup; cbn; rewrite Henv; reflexivity).
  split; [exact Hflag|]. split; [reflexivity|]. split.
  - intros t args s H. apply handler_unconfigured, H.
  - intros calls. exists (startup w).
    rewrite serve_unconfigured by exact Hflag. auto.
Qed.

(** C2 on a process started without [FAL_KEY] and called once on each
    tool. *)
Lemma missing_credential_short_circuits_witness :
  handler Examples.unconfigured GenerateSync Examples.test_args
    (startup Examples.unconfigured) =
    (Ok not_configured, startup Examples.unconfigured) /\
  exists s',
    serve Examples.unconfigured
      [(GenerateSync, Examples.test_args); (GenerateQueue, Examples.test_args);
       (QueueStatusTool, Examples.status_args);
       (QueueResultTool, Examples.status_args)]
      (startup Examples.unconfigured) =
      (Ok [not_configured; not_configured; not_configured; not_configured], s') /\
    gateway_calls (trace s') = [].
Proof.
  destruct (missing_credential_short_circuits Examples.unconfigured eq_refl)
    as (Hflag & _ & Hone & Hall).
  split; [apply Hone, Hflag|].
  destruct (Hall [(GenerateSync, Examples.test_args);
                  (GenerateQueue, Examples.test_args);
                  (QueueStatusTool, Examples.status_args);
                  (QueueResultTool, Examples.status_args)])
    as (s' & Hrun & Hgw & _).
  exists s'. split; [exact Hrun | exact Hgw].
Defined.

(** C3 fails when a download does not settle. A configured
    [minimax_generate] (on a string prompt) or [minimax_queue_result] has
    got its result from the gateway, and the first download neither
    resolves nor rejects. Then the handler returns no response: it ends as
    that download does, pending for ever or with the exception of an
    ['error'] event that had no listener. When the write stream fails to
    open, that is an uncaught exception raised from inside the tool call,
    which the [catch] block never sees, and the process serves no further
    call. *)
Theorem handler_unsettled_download (w : World) (t : Tool)
    (args : gmap string jsval) (s : State) (result : Result) (x : Image)
    (rest : list Image) :
  falConfigured s = true ->
  match t with
  | GenerateSync =>
      (exists p, args !! "prompt" = Some (JStr p)) /\
      fal_subscribe w (generate_input args) = Resolved result
  | QueueResultTool =>
      fal_queue_result w (args !! "request_id") = Resolved result
  | GenerateQueue | QueueStatusTool => False
  end ->
  images (data result) = x :: rest ->
  download_settles w (downloads s) (img_url x) = false ->
  exists (r : res ToolResponse) (s' : State),
    handler w t args s = (r, s') /\
    (forall fname,
       unsettled (download_result w (downloads s) (img_url x) fname) r) /\
    (forall resp, r <> Ok resp) /\
    (forall secure e,
       parse_url w (img_url x) = Some secure ->
       http_get w (downloads s) (img_url x) = OpenError e ->
       r = Uncaught e) /\
    (forall e, r = Uncaught e ->
       forall calls, serve w ((t, args) :: calls) s = (Uncaught e, s')).
Proof.
  intros Hconf Hgw Himgs Hstuck.
  assert (Hrun : exists (r : res ToolResponse) (s' : State),
            handler w t args s = (r, s') /\
            forall fname,
              unsettled (download_result w (downloads s) (img_url x) fname) r).
  { rewrite <- (Nat.add_0_r (downloads s)) in Hstuck.
    destruct t; cbn [handler]; try contradiction.
    - destruct Hgw as [[p Hprompt] Hgw].
      destruct (minimax_generate_stops w args s p result [] x rest
                  Hconf Hprompt Hgw Himgs eq_refl Hstuck)
        as (r & s' & Hrun & Hr & _).
      exists r, s'. split; [exact Hrun|].
      intros f. specialize (Hr f). cbn [length] in Hr.
      rewrite Nat.add_0_r in Hr. exact Hr.
    - destruct (minimax_queue_result_stops w args s result [] x rest
                  Hconf Hgw Himgs eq_refl Hstuck)
        as (r & s' & Hrun & Hr & _).
      exists r, s'. split; [exact Hrun|].
      intros f. specialize (Hr f). cbn [length] in Hr.
      rewrite Nat.add_0_r in Hr. exact Hr. }
  destruct Hrun as (r & s' & Hrun & Hr).
  exists r, s'. split; [exact Hrun|]. split; [exact Hr|].
  split; [|split].
  - intros resp ->. specialize (Hr "").
    destruct (download_result _ _ _ _); exact Hr.
  - intros secure e Hurl Hget.
    destruct (open_error_unsettled w _ _ _ _ Hurl Hget) as [_ Hres].
    specialize (Hr ""). rewrite Hres in Hr.
    destruct r as [y|e'|e'|]; cbn in Hr; try contradiction.
    rewrite Hr. reflexivity.
  - intros e -> calls. cbn [serve]. rewrite Hrun. reflexivity.
Qed.

(** C3 on a server that cannot write to its images directory: neither
    [minimax_generate] nor any later call is answered. *)
Lemma handler_unsettled_download_witness :
  exists s',
    handler MoreExamples.read_only GenerateSync Examples.test_args
      (startup MoreExamples.read_only) =
      (Uncaught (JsError "EACCES: permission denied, open"), s') /\
    serve MoreExamples.read_only
      [(GenerateSync, Examples.test_args);
       (QueueStatusTool, Examples.status_args)]
      (startup MoreExamples.read_only) =
      (Uncaught (JsError "EACCES: permission denied, open"), s').
Proof.
  destruct (handler_unsettled_download MoreExamples.read_only GenerateSync
              Examples.test_args (startup MoreExamples.read_only)
              (Examples.two_images None)
              (Examples.image "https://cdn.example/a.png")
              [Examples.image "https://cdn.example/b.png"]
              eq_refl (conj (ex_intro _ "test" eq_refl) eq_refl)
              eq_refl eq_refl)
    as (r & s' & Hrun & _ & _ & Hopen & Hserve).
  pose proof (Hopen true (JsError "EACCES: permission denied, open")
                eq_refl eq_refl) as Hr.
  exists s'. split.
  - rewrite <- Hr. exact Hrun.
  - exact (Hserve _ Hr _).
Defined.

(** The same defect through [minimax_queue_result], and a response that
    is cut off leaves the call pending. *)
Example handlers_without_response :
  (handler MoreExamples.read_only QueueResultTool Examples.status_args
     (startup MoreExamples.read_only)).1 =
    Uncaught (JsError "EACCES: permission denied, open") /\
  (handler MoreExamples.cut_off GenerateSync Examples.test_args
     (startup MoreExamples.cut_off)).1 = Pending /\
  (handler MoreExamples.cut_off QueueResultTool Examples.status_args
     (startup MoreExamples.cut_off)).1 = Pending.
Proof. repeat split; vm_compute; reflexivity. Qed.

(** A rejected gateway call becomes the error-flagged response of the
    handler's [catch] block. *)
Lemma gateway_failure_flagged (w : World) (args : gmap string jsval)
    (s : State) (e : jserr) :
  falConfigured s = true ->
  (fal_subscribe w (generate_input args) = Rejected e ->
   exists s', minimax_generate w args s =
     (Ok (error_response
            "Failed to generate image with fal-ai/minimax/image-01." e), s')) /\
  (fal_queue_result w (args !! "request_id") = Rejected e ->
   exists s', minimax_queue_result w args s =
     (Ok (error_response "Failed to get queue result." e), s')).
Proof.
  intros Hconf. split; intros Hgw;
    unfold minimax_generate, minimax_queue_result, bind at 1, get_state;
    rewrite Hconf; cbn [negb]; cbv iota;
    unfold try_catch, bind, modify, await; rewrite Hgw; eauto.
Qed.

(** *** [minimax_queue_status] *)





(** *** [minimax_generate_queue] *)

(** C6, as stated, fails: the response names the request id and the
    prompt, and not the aspect ratio. *)
Lemma queue_submit_text_omits_aspect_ratio :
  exists r,
    (minimax_generate_queue Examples.configured Examples.test_args
       (startup Examples.configured)).1 = Ok r /\
    includes "abc123" (text r) = true /\
    includes "16:9" (text r) = false /\
    ~ (includes "abc123" (text r) = true /\ includes "16:9" (text r) = true).
Proof.
  eexists. split; [vm_compute; reflexivity|].
  split; [vm_compute; reflexivity|]. split; [vm_compute; reflexivity|].
  intros [_ H]. vm_compute in H. discriminate H.
Qed.

(** C6, amended: when [minimax_generate_queue] is called with
    [{prompt: "test", aspect_ratio: "16:9"}] and the gateway submit call
    returns [{request_id: "abc123"}], the response is not error-flagged and
    its text contains ["abc123"] and the prompt ["test"]; the aspect ratio
    ["16:9"] is passed to the gateway in the request body and does not
    appear in the text. *)
Theorem queue_submit_round_trip (w : World) (s : State) :
  falConfigured s = true ->
  (forall input hook,
     fal_queue_submit w input hook = Resolved {| request_id := "abc123" |}) ->
  exists r s',
    minimax_generate_queue w Examples.test_args s = (Ok r, s') /\
    isError r = false /\
    includes "abc123" (text r) = true /\
    includes "test" (text r) = true /\
    includes "16:9" (text r) = false /\
    exists input,
      gateway_calls (trace s') =
        gateway_calls (trace s) ++ [QueueSubmit MODEL input None] /\
      input !! "aspect_ratio" = Some (JStr "16:9") /\
      input !! "prompt" = Some (JStr "test").
Proof.
  intros Hconf Hgw.
  unfold minimax_generate_queue, bind at 1, get_state. cbv beta iota.
  rewrite Hconf. cbn [negb]. cbv beta iota.
  unfold try_catch, bind, modify, await. rewrite Hgw.
  eexists _, _. split; [reflexivity|]. split; [reflexivity|].
  split; [vm_compute; reflexivity|]. split; [vm_compute; reflexivity|].
  split; [vm_compute; reflexivity|].
  exists (delete "webhook_url" Examples.test_args).
  split; [|split; vm_compute; reflexivity].
  cbn [trace emit]. rewrite gateway_calls_app. reflexivity.
Qed.

(** C6, amended, on a configured server whose gateway enqueues every
    request as ["abc123"]. *)
Lemma queue_submit_round_trip_witness :
  exists r s',
    minimax_generate_queue Examples.configured Examples.test_args
      (startup Examples.configured) = (Ok r, s') /\
    includes "abc123" (text r) = true /\
    includes "test" (text r) = true.
Proof.
  destruct (queue_submit_round_trip Examples.configured
              (startup Examples.configured) eq_refl (fun _ _ => eq_refl))
    as (r & s' & Hrun & _ & Hid & Hprompt & _).
  exists r, s'. split; [exact Hrun|]. split; [exact Hid | exact Hprompt].
Defined.

(** *** The report of [minimax_generate] *)

Lemma template_app (a b : list string) :
  template (a ++ b) = template a +:+ template b.
Proof.
  induction a as [|x a IH]; [reflexivity|].
  cbn [app template]. rewrite IH, append_assoc. reflexivity.
Qed.

(** A template literal contains each run of consecutive parts. *)
Lemma includes_segment (pre seg post : list string) :
  includes (template seg) (template (pre ++ seg ++ post)) = true.
Proof. rewrite !template_app. apply includes_app_r, includes_here. Qed.

(** ... and whatever one of its parts contains. *)
Lemma includes_part (p x : string) (parts : list string) :
  In p parts -> includes x p = true -> includes x (template parts) = true.
Proof.
  intros Hin Hx. induction parts as [|q parts IH]; [destruct Hin|].
  cbn [template]. destruct Hin as [->|Hin].
  - apply includes_app_l, Hx.
  - apply includes_app_r, IH, Hin.
Qed.

Lemma includes_join (x sep : string) (l : list string) :
  In x l -> includes x (join sep l) = true.
Proof.
  unfold join. induction l as [|y l IH]; intros Hin; [destruct Hin|].
  destruct l as [|z l].
  - destruct Hin as [->|[]]. apply includes_refl.
  - change (String.concat sep (y :: z :: l))
      with (y +:+ sep +:+ String.concat sep (z :: l)).
    destruct Hin as [->|Hin]; [apply includes_here|].
    apply includes_app_r, includes_app_r, IH, Hin.
Qed.


(** C8 at a gateway result whose seed is 0: the report of the successful
    call reads ["Seed: Auto-generated"] and shows no ["Seed: 0"]. *)
Theorem generate_report_zero_seed :
  seed (data (Examples.two_images (Some 0%Z))) = Some 0%Z /\
  exists r,
    (minimax_generate Examples.zero_seed Examples.test_args
       (startup Examples.zero_seed)).1 = Ok r /\
    isError r = false /\
    includes "Seed: Auto-generated" (text r) = true /\
    includes "Seed: 0" (text r) = false.
Proof.
  split; [reflexivity|].
  eexists. split; [vm_compute; reflexivity|].
  split; [reflexivity|]. split; vm_compute; reflexivity.
Qed.

End HandlerProps.

(** ** The declared schema and the handler *)

Module ProtocolProps.
Import Chars JsString Js Fal Sys Download Materializer Tools Protocol.
Import DownloadProps LoopProps HandlerProps.

(** With a string prompt, [minimax_generate] makes exactly one gateway
    call, whose input is the object built from the arguments, however the
    call ends. *)
Lemma minimax_generate_gateway_call (w : World) (args : gmap string jsval)
    (s : State) (p : string) :
  falConfigured s = true ->
  args !! "prompt" = Some (JStr p) ->
  gateway_calls (trace (minimax_generate w args s).2) =
    gateway_calls (trace s) ++ [Subscribe MODEL (generate_input args)].
Proof.
  intros Hconf Hprompt.
  destruct (fal_subscribe w (generate_input args)) as [result|e] eqn:Hgw.
  - destruct (downloads_settle w (downloads s) (images (data result))) eqn:E.
    + destruct (minimax_generate_success w args s p result Hconf Hprompt Hgw E)
        as (s' & _ & Hrun & _ & Hcalls).
      rewrite Hrun. exact Hcalls.
    + destruct (downloads_settle_split w _ _ E)
        as (pre & x & post & Himgs & Hpre & Hx).
      destruct (minimax_generate_stops w args s p result pre x post
                  Hconf Hprompt Hgw Himgs Hpre Hx)
        as (r & s' & Hrun & _ & _ & Hcalls).
      rewrite Hrun. exact Hcalls.
  - unfold minimax_generate, bind at 1, get_state. cbv beta iota.
    rewrite Hconf. cbn [negb]. cbv beta iota.
    unfold try_catch, bind, modify, await, ret. rewrite Hgw.
    cbn [fst snd trace emit]. rewrite gateway_calls_app. reflexivity.
Qed.

Lemma generate_input_num_images (args : gmap string jsval) (n : Z) :
  generate_input (<["num_images" := JNum n]> args) !! "num_images" =
    Some (JNum n).
Proof.
  unfold generate_input, prop_or. rewrite lookup_insert_eq. cbn [default].
  destruct (<["num_images" := JNum n]> args !! "prompt_optimizer");
    cbn [set_prop]; rewrite ?lookup_insert_ne by discriminate;
    apply lookup_insert_eq.
Qed.

(** C9 fails at 10. The schema of [minimax_generate] declares
    [num_images] as an integer between 1 and 9, which 10 is not; but the
    schema is only handed to [server.tool] as a plain object, and the
    handler does not look at it: whatever number [n] its argument object
    carries as [num_images], 10 included, a gateway call is made and the
    gateway receives [n]. *)
Theorem num_images_not_checked (w : World) (args : gmap string jsval)
    (s : State) (p : string) (n : Z) :
  falConfigured s = true ->
  args !! "prompt" = Some (JStr p) ->
  declared minimax_generate_schema "num_images" =
    Some (SchemaInteger (Some 1%Z) (Some 9%Z)) /\
  conforms (SchemaInteger (Some 1%Z) (Some 9%Z)) (JNum 10) = false /\
  exists input,
    gateway_calls
      (trace (minimax_generate w (<["num_images" := JNum n]> args) s).2) =
      gateway_calls (trace s) ++ [Subscribe MODEL input] /\
    input !! "num_images" = Some (JNum n).
Proof.
  intros Hconf Hprompt. split; [reflexivity|]. split; [reflexivity|].
  exists (generate_input (<["num_images" := JNum n]> args)).
  split; [|apply generate_input_num_images].
  apply (minimax_generate_gateway_call w _ s p Hconf).
  rewrite lookup_insert_ne by discriminate. exact Hprompt.
Qed.

(** C9 on [{prompt: "test", aspect_ratio: "16:9", num_images: 10}]: the
    gateway is called, with 10. *)
Lemma num_images_not_checked_witness :
  exists input,
    gateway_calls
      (trace (minimax_generate Examples.configured
                (Examples.with_num_images 10)
                (startup Examples.configured)).2) =
      [Subscribe MODEL input] /\
    input !! "num_images" = Some (JNum 10).
Proof.
  destruct (num_images_not_checked Examples.configured Examples.test_args
              (startup Examples.configured) "test" 10%Z eq_refl eq_refl)
    as (_ & _ & H).
  exact H.
Defined.

(** With 10 the call is answered like any other: two images, no error
    flag. *)
Example ten_images_accepted :
  exists r,
    (minimax_generate Examples.configured (Examples.with_num_images 10)
       (startup Examples.configured)).1 = Ok r /\
    isError r = false /\
    includes "Number of Images: 10" (text r) = true.
Proof. eexists. split; [vm_compute; reflexivity|]. split; vm_compute; reflexivity. Qed.

End ProtocolProps.

(** ** More on [downloadImage] and the download loop *)

Module DownloadExtras.
Import Chars JsString Filename Js Fal Sys Download Materializer Tools Observe.
Import StringFacts DownloadProps LoopProps.

Lemma mkdirs_app (a b : list Event) : mkdirs (a ++ b) = mkdirs a ++ mkdirs b.
Proof. apply omap_app. Qed.

Lemma http_gets_app (a b : list Event) :
  http_gets (a ++ b) = http_gets a ++ http_gets b.
Proof. apply omap_app. Qed.

Lemma fs_ops_app (a b : list Event) : fs_ops (a ++ b) = fs_ops a ++ fs_ops b.
Proof. apply omap_app. Qed.

Ltac observe_more :=
  cbn [trace files dirs downloads clock_reads falConfigured emit with_files
       with_dirs count_download];
  rewrite ?mkdirs_app, ?http_gets_app, ?fs_ops_app, ?unlinks_app;
  cbn [mkdirs http_gets fs_ops unlinks omap list_omap];
  rewrite ?app_nil_r, <- ?app_assoc.

(** X1: a download answered with 200 and written without error resolves
    with the local path; afterwards the file holds the whole body, the
    [images] directory exists, one GET was issued and nothing was
    unlinked. *)
Theorem downloadImage_resolves (w : World) (url fname : string) (s : State)
    (secure : bool) (body : string) :
  parse_url w url = Some secure ->
  http_get w (downloads s) url = Response 200 body None ->
  exists s',
    downloadImage w url fname s = (Ok (local_path w fname), s') /\
    files s' !! local_path w fname = Some body /\
    path_join (cwd w) "images" ∈ dirs s' /\
    http_gets (trace s') = http_gets (trace s) ++ [url] /\
    unlinks (trace s') = unlinks (trace s).
Proof.
  intros Hurl Hget. run_download. rewrite Hurl, Hget. cbn [Z.eqb Pos.eqb negb].
  destruct (bool_decide _) eqn:E; eexists; (split; [reflexivity|]);
    observe_more.
  - apply bool_decide_eq_true in E.
    split; [apply lookup_insert_eq|]. repeat split; auto.
  - split; [apply lookup_insert_eq|]. split; [set_solver|].
    repeat split; reflexivity.
Qed.

(** X1 on the second download of the test world. *)
Lemma downloadImage_resolves_witness :
  exists s',
    downloadImage Examples.zero_seed "https://cdn.example/b.png" "b.png"
      (startup Examples.zero_seed) = (Ok "/srv/images/b.png", s') /\
    files s' !! "/srv/images/b.png" = Some "PNG".
Proof.
  destruct (downloadImage_resolves Examples.zero_seed
              "https://cdn.example/b.png" "b.png"
              (startup Examples.zero_seed) true "PNG" eq_refl eq_refl)
    as (s' & Hrun & Hfile & _).
  exists s'. split; [exact Hrun | exact Hfile].
Defined.

(** X2: a URL that [new URL] refuses makes [downloadImage] reject with
    that failure before anything else happens: no directory or file is
    created, no request is issued. *)
Theorem downloadImage_invalid_url (w : World) (url fname : string)
    (s : State) :
  parse_url w url = None ->
  exists s',
    downloadImage w url fname s = (Throw (JsError "Invalid URL"), s') /\
    files s' = files s /\
    dirs s' = dirs s /\
    fs_ops (trace s') = fs_ops (trace s) /\
    http_gets (trace s') = http_gets (trace s).
Proof.
  intros Hurl. run_download. rewrite Hurl.
  eexists. split; [reflexivity|]. observe_more. repeat split; reflexivity.
Qed.

(** X2 on a world where no URL parses. *)
Lemma downloadImage_invalid_url_witness :
  exists s',
    downloadImage MoreExamples.bad_urls "not a url" "a.png"
      (startup MoreExamples.bad_urls) = (Throw (JsError "Invalid URL"), s') /\
    files s' = ∅.
Proof.
  destruct (downloadImage_invalid_url MoreExamples.bad_urls "not a url" "a.png"
              (startup MoreExamples.bad_urls) eq_refl)
    as (s' & Hrun & Hfiles & _).
  exists s'. split; [exact Hrun | exact Hfiles].
Defined.

(** X3: when the request errors before any response, [downloadImage]
    rejects with the request's error, and the file opened for writing
    before the request stays on disk, empty. *)
Theorem downloadImage_request_error (w : World) (url fname : string)
    (s : State) (secure : bool) (err : jserr) :
  parse_url w url = Some secure ->
  http_get w (downloads s) url = ConnError err ->
  exists s',
    downloadImage w url fname s = (Throw err, s') /\
    files s' !! local_path w fname = Some "" /\
    unlinks (trace s') = unlinks (trace s).
Proof.
  intros Hurl Hget. run_download. rewrite Hurl, Hget.
  destruct (bool_decide _); eexists; (split; [reflexivity|]); observe_more;
    (split; [apply lookup_insert_eq | reflexivity]).
Qed.

(** X3 on a world without network. *)
Lemma downloadImage_request_error_witness :
  exists s',
    downloadImage MoreExamples.offline "https://cdn.example/a.png" "a.png"
      (startup MoreExamples.offline) =
      (Throw (JsError "connect ECONNREFUSED"), s') /\
    files s' !! "/srv/images/a.png" = Some "".
Proof.
  destruct (downloadImage_request_error MoreExamples.offline
              "https://cdn.example/a.png" "a.png"
              (startup MoreExamples.offline) true _ eq_refl eq_refl)
    as (s' & Hrun & Hfile & _).
  exists s'. split; [exact Hrun | exact Hfile].
Defined.

(** X4: whatever happens to a download, every file other than its own
    target is left as it was, and no directory disappears. *)
Theorem downloadImage_other_files (w : World) (url fname : string)
    (s : State) (other : string) :
  other <> local_path w fname ->
  files (downloadImage w url fname s).2 !! other = files s !! other /\
  dirs s ⊆ dirs (downloadImage w url fname s).2.
Proof.
  intros Hother. run_download.
  destruct (parse_url w url) as [secure|]; [|split; [reflexivity|set_solver]].
  destruct (bool_decide _);
    (destruct (http_get w (downloads s) url)
       as [err|err|code body [[n err]|]|received [err|]];
     try destruct (code =? 200)%Z);
    cbn [negb fst snd]; observe_more;
    (split; [|set_solver]);
    rewrite ?lookup_delete_ne, ?lookup_insert_ne by (unfold local_path in Hother; congruence);
    reflexivity.
Qed.

(** X4 on a file written by an earlier download. *)
Lemma downloadImage_other_files_witness :
  files (downloadImage Examples.configured "https://cdn.example/a.png" "a.png"
           (startup Examples.configured)).2 !! "/srv/images/old.png" =
    files (startup Examples.configured) !! "/srv/images/old.png".
Proof.
  apply (downloadImage_other_files Examples.configured
           "https://cdn.example/a.png" "a.png" (startup Examples.configured)
           "/srv/images/old.png").
  discriminate.
Defined.

(** X5: when a 200 response cannot be written to the end, the promise
    rejects with the stream's error and the partial file is deleted: after
    the call the target path holds no file, and the one unlink recorded is
    that of the target. *)
Theorem downloadImage_write_error_cleans_up (w : World) (url fname : string)
    (s : State) (secure : bool) (body : string) (n : nat) (err : jserr) :
  parse_url w url = Some secure ->
  http_get w (downloads s) url = Response 200 body (Some (n, err)) ->
  exists s',
    downloadImage w url fname s = (Throw err, s') /\
    files s' !! local_path w fname = None /\
    unlinks (trace s') = unlinks (trace s) ++ [local_path w fname] /\
    fs_ops (trace s') =
      fs_ops (trace s) ++
      (if bool_decide (path_join (cwd w) "images" ∈ dirs s) then []
       else [Mkdir (path_join (cwd w) "images")]) ++
      [CreateWriteStream (local_path w fname);
       Pipe (local_path w fname) (substring 0 n body);
       Unlink (local_path w fname)].
Proof.
  intros Hurl Hget. run_download. rewrite Hurl, Hget. cbn [Z.eqb Pos.eqb negb].
  destruct (bool_decide _) eqn:E; eexists; (split; [reflexivity|]);
    observe_more; (split; [apply lookup_delete_eq|]); split; reflexivity.
Qed.

(** X5 on a disk that fills up after two characters. *)
Lemma downloadImage_write_error_cleans_up_witness :
  exists s',
    downloadImage
      (Examples.world (Some "key") Examples.write_breaks None
         (Resolved Examples.in_progress))
      "https://cdn.example/a.png" "a.png" (startup Examples.configured) =
      (Throw (JsError "ENOSPC"), s') /\
    files s' !! "/srv/images/a.png" = None.
Proof.
  destruct (downloadImage_write_error_cleans_up
              (Examples.world (Some "key") Examples.write_breaks None
                 (Resolved Examples.in_progress))
              "https://cdn.example/a.png" "a.png" (startup Examples.configured)
              true "PNGDATA" 2 (JsError "ENOSPC") eq_refl eq_refl)
    as (s' & Hrun & Hfile & _).
  exists s'. split; [exact Hrun | exact Hfile].
Defined.

End DownloadExtras.

(** ** Invariants of the loop and of the handlers *)

Module InvariantExtras.
Import Chars JsString Filename Js Fal Sys Download Materializer Tools Observe.
Import StringFacts DownloadProps LoopProps HandlerProps DownloadExtras.

(** [generateImageFilename] either names the file, reading the clock once,
    or throws the [TypeError] of [prompt.toLowerCase()], leaving the state
    alone. *)
Lemma call_generateImageFilename_cases (w : World) (naming : option jsval)
    (idx : Z) (seed : option Z) (s : State) :
  (exists p, naming = Some (JStr p) /\
     call_generateImageFilename w naming idx seed s =
       (Ok (generateImageFilename (now w (clock_reads s)) p idx seed),
        tick_clock s)) \/
  (exists msg, (forall p, naming <> Some (JStr p)) /\
     includes "toLowerCase" msg = true /\
     call_generateImageFilename w naming idx seed s = (Throw (JsError msg), s)).
Proof.
  destruct naming as [[| b | n | p]|].
  - right. eexists. split; [discriminate|]. split; [|reflexivity].
    vm_compute. reflexivity.
  - right. eexists. split; [discriminate|]. split; [|reflexivity].
    vm_compute. reflexivity.
  - right. eexists. split; [discriminate|]. split; [|reflexivity].
    vm_compute. reflexivity.
  - left. exists p. split; reflexivity.
  - right. eexists. split; [discriminate|]. split; [|reflexivity].
    vm_compute. reflexivity.
Qed.

Lemma loop_body_state (w : World) (image : Image) (i : nat) (fname : string)
    (s : State) :
  exists r,
    try_catch
      (path <- downloadImage w (img_url image) fname ;;
       ret (mkDownloaded image (Some path) i fname))
      (fun _ => ret (mkDownloaded image None i fname)) s =
    (r, (downloadImage w (img_url image) fname s).2).
Proof.
  unfold try_catch, bind, ret.
  destruct (downloadImage w (img_url image) fname s) as [[path|e|e|] s'];
    eexists; reflexivity.
Qed.

(** With a naming seed that is not a string the loop stops at the first
    image, before any download. *)
Lemma download_loop_non_string (w : World) (naming : option jsval)
    (seed : option Z) (image : Image) (rest : list Image) (i : nat)
    (acc : list Downloaded) (s : State) :
  (forall p, naming <> Some (JStr p)) ->
  exists msg,
    includes "toLowerCase" msg = true /\
    download_loop w naming seed (image :: rest) i acc s =
      (Throw (JsError msg), s).
Proof.
  intros Hnaming. cbn [download_loop]. unfold bind at 1.
  destruct (call_generateImageFilename_cases w naming (Z.of_nat i + 1) seed s)
    as [(p & Hp & _)|(msg & _ & Hmsg & Hrun)].
  - destruct (Hnaming p Hp).
  - exists msg. rewrite Hrun. split; [exact Hmsg | reflexivity].
Qed.

Section Invariant.
Context (w : World) (R : State -> State -> Prop).
Hypothesis R_refl : forall s, R s s.
Hypothesis R_trans : forall a b c, R a b -> R b c -> R a c.
Hypothesis R_tick : forall s, R s (tick_clock s).
Hypothesis R_download :
  forall url fname s, R s (downloadImage w url fname s).2.

(** A relation kept by clock readings and by single downloads is kept by
    the whole loop, however it ends. *)
Lemma download_loop_invariant (naming : option jsval) (seed : option Z)
    (imgs : list Image) :
  forall (i : nat) (acc : list Downloaded) (s : State),
    R s (download_loop w naming seed imgs i acc s).2.
Proof.
  induction imgs as [|image rest IH]; intros i acc s; [apply R_refl|].
  cbn [download_loop]. unfold bind at 1.
  destruct (call_generateImageFilename_cases w naming (Z.of_nat i + 1) seed s)
    as [(p & _ & Hrun)|(msg & _ & _ & Hrun)]; rewrite Hrun; [|apply R_refl].
  set (fname := generateImageFilename _ _ _ _).
  destruct (loop_body_state w image i fname (tick_clock s)) as [r Hbody].
  unfold bind at 1. rewrite Hbody.
  eapply R_trans; [apply R_tick|].
  destruct r as [d|e|e|]; cbn [snd]; try apply R_download.
  eapply R_trans; [apply R_download|]. apply IH.
Qed.

Hypothesis R_gateway : forall c s, R s (emit (EvGateway c) s).

(** ... and by every handler. *)
Lemma handler_invariant (t : Tool) (args : gmap string jsval) (s : State) :
  R s (handler w t args s).2.
Proof.
  destruct (falConfigured s) eqn:Hconf;
    [|rewrite handler_unconfigured by exact Hconf; apply R_refl].
  destruct t; cbn [handler];
    unfold minimax_generate, minimax_generate_queue, minimax_queue_status,
      minimax_queue_result, bind at 1, get_state;
    cbv beta iota; rewrite Hconf; cbn [negb]; cbv beta iota;
    unfold try_catch, bind at 1, modify; cbv beta iota;
    unfold bind at 1, await.
  - destruct (fal_subscribe w (generate_input args)) as [result|e];
      [|apply R_gateway].
    unfold bind.
    pose proof (download_loop_invariant (args !! "prompt")
                  (seed (data result)) (images (data result)) 0 []
                  (emit (EvGateway (Subscribe MODEL (generate_input args))) s))
      as Hloop.
    destruct (download_loop _ _ _ _ _ _ _) as [[ds|e|e|] s1];
      (eapply R_trans; [apply R_gateway | exact Hloop]).
  - destruct (fal_queue_submit w _ _) as [result|e]; apply R_gateway.
  - destruct (fal_queue_status w _ _) as [st|e]; apply R_gateway.
  - destruct (fal_queue_result w (args !! "request_id")) as [result|e];
      [|apply R_gateway].
    unfold bind.
    pose proof (download_loop_invariant
                  (Some (JStr ("queue_result_" +:+ ToString (args !! "request_id"))))
                  (seed (data result)) (images (data result)) 0 []
                  (emit (EvGateway (QueueResult MODEL (args !! "request_id"))) s))
      as Hloop.
    destruct (download_loop _ _ _ _ _ _ _) as [[ds|e|e|] s1];
      (eapply R_trans; [apply R_gateway | exact Hloop]).
Qed.

(** ... and by every sequence of calls. *)
Lemma serve_invariant (calls : list (Tool * gmap string jsval)) :
  forall s, R s (serve w calls s).2.
Proof.
  induction calls as [|[t args] rest IH]; intros s; [apply R_refl|].
  cbn [serve].
  pose proof (handler_invariant t args s) as Hh.
  destruct (handler w t args s) as [[r|e|e|] s1]; cbn [snd] in *;
    try exact Hh.
  - unfold bind at 1. specialize (IH s1).
    destruct (serve w rest s1) as [[rs|e|e|] s2]; cbn [snd] in *;
      eapply R_trans; eassumption.
  - eapply R_trans; [exact Hh | apply IH].
Qed.

End Invariant.

End InvariantExtras.

(** ** More on the handlers *)

Module HandlerExtras.
Import Chars JsString Filename Js Fal Sys Download Materializer Tools Observe.
Import StringFacts DownloadProps LoopProps HandlerProps DownloadExtras.
Import InvariantExtras.

(** X6: no handler writes the credential flag: after any call, and after
    any sequence of calls, [falConfigured] is what it was, whatever the
    gateway and the downloads did. *)
Theorem flag_fixed_after_startup (w : World)
    (calls : list (Tool * gmap string jsval)) (t : Tool)
    (args : gmap string jsval) (s : State) :
  falConfigured (handler w t args s).2 = falConfigured s /\
  falConfigured (serve w calls s).2 = falConfigured s.
Proof.
  assert (Hd : forall url fname s0,
             falConfigured (downloadImage w url fname s0).2 = falConfigured s0).
  { intros url fname s0.
    destruct (downloadImage_spec w url fname s0) as (s' & Hrun & _ & _ & Hf & _).
    rewrite Hrun. exact Hf. }
  split.
  - apply (handler_invariant w (fun a b => falConfigured b = falConfigured a));
      auto; intros; congruence.
  - apply (serve_invariant w (fun a b => falConfigured b = falConfigured a));
      auto; intros; congruence.
Qed.

Lemma downloadImage_mkdir (w : World) (url fname : string) (s : State) :
  let dir := path_join (cwd w) "images" in
  let s' := (downloadImage w url fname s).2 in
  dirs s ⊆ dirs s' /\
  exists made,
    mkdirs (trace s') = mkdirs (trace s) ++ made /\
    (made = [] \/ (made = [dir] /\ (dir ∉ dirs s) /\ (dir ∈ dirs s'))).
Proof.
  intros dir s'. subst s'. run_download.
  destruct (parse_url w url) as [secure|].
  { destruct (bool_decide _) eqn:E;
      (destruct (http_get w (downloads s) url)
         as [err|err|code body [[n err]|]|received [err|]];
       try destruct (code =? 200)%Z);
      cbn [negb fst snd]; observe_more;
      (split; [set_solver|]);
      first [ apply bool_decide_eq_false in E;
              exists [dir]; split; [reflexivity|]; right;
              split; [reflexivity|]; split; [exact E | set_solver]
            | exists []; split; [rewrite app_nil_r; reflexivity | left; reflexivity] ]. }
  cbn [fst snd]. observe_more. split; [set_solver|].
  exists []. split; [rewrite app_nil_r; reflexivity | left; reflexivity].
Qed.

(** X7: over a whole sequence of tool calls the [images] directory is
    created at most once, and never when it already exists; directories
    are never removed. *)
Theorem images_dir_created_once (w : World)
    (calls : list (Tool * gmap string jsval)) (s : State) :
  let dir := path_join (cwd w) "images" in
  let s' := (serve w calls s).2 in
  dirs s ⊆ dirs s' /\
  exists made,
    mkdirs (trace s') = mkdirs (trace s) ++ made /\
    (made = [] \/ made = [dir]) /\
    (dir ∈ dirs s -> made = []).
Proof.
  intros dir s'.
  set (R := fun a b : State =>
              dirs a ⊆ dirs b /\
              exists made,
                mkdirs (trace b) = mkdirs (trace a) ++ made /\
                (made = [] \/ (made = [dir] /\ (dir ∉ dirs a) /\ (dir ∈ dirs b)))).
  assert (Hsame : forall a b, dirs b = dirs a ->
                    mkdirs (trace b) = mkdirs (trace a) -> R a b).
  { intros a b Hd Ht. split; [rewrite Hd; reflexivity|].
    exists []. rewrite Ht, app_nil_r. auto. }
  assert (H : R s s').
  { apply (serve_invariant w R).
    - intros a. apply Hsame; reflexivity.
    - intros a b c [Hab (m1 & Hm1 & Hc1)] [Hbc (m2 & Hm2 & Hc2)].
      split; [etrans; eassumption|].
      destruct Hc2 as [->|(-> & Hnb & Hc)].
      + exists m1. rewrite Hm2, app_nil_r. split; [exact Hm1|].
        destruct Hc1 as [->|(-> & Hna & Hb)]; [left; reflexivity|].
        right. split; [reflexivity|]. split; [exact Hna | apply Hbc, Hb].
      + destruct Hc1 as [->|(-> & Hna & Hb)]; [|destruct (Hnb Hb)].
        exists [dir]. rewrite Hm2, Hm1, app_nil_r. split; [reflexivity|].
        right. split; [reflexivity|]. split; [|exact Hc].
        intros Hin. apply Hnb, Hab, Hin.
    - intros a. apply Hsame; reflexivity.
    - intros url fname a. apply downloadImage_mkdir.
    - intros c a. apply Hsame; [reflexivity|].
      cbn [trace emit]. rewrite mkdirs_app. apply app_nil_r. }
  destruct H as [Hsub (made & E & C)]. split; [exact Hsub|].
  exists made. split; [exact E|]. split.
  - destruct C as [->|(-> & _)]; auto.
  - intros Hin. destruct C as [->|(_ & Hn & _)]; [reflexivity | destruct (Hn Hin)].
Qed.

(** X8: a [FAL_KEY] set to the empty string counts as missing: the flag
    is set exactly for a non-empty key, and with the empty key every call
    of every sequence gets the missing-credential response and the state
    never changes. *)
Theorem empty_key_is_missing (w : World) :
  env_FAL_KEY w = Some "" ->
  (falConfigured (startup w) = false) /\
  (forall w0 : World,
     falConfigured (startup w0) = true <->
     exists key, env_FAL_KEY w0 = Some key /\ key <> "") /\
  (forall calls : list (Tool * gmap string jsval),
     serve w calls (startup w) =
       (Ok (map (fun _ => not_configured) calls), startup w)).
Proof.
  intros Henv.
  assert (Hflag : falConfigured (startup w) = false)
    by (unfold startup; cbn; rewrite Henv; reflexivity).
  split; [exact Hflag|]. split.
  - intros w0. unfold startup. cbn [falConfigured].
    destruct (env_FAL_KEY w0) as [key|]; split.
    + intros H. exists key. split; [reflexivity|].
      apply negb_true_iff, String.eqb_neq in H. exact H.
    + intros (k & [= ->] & Hk). apply negb_true_iff, String.eqb_neq, Hk.
    + discriminate.
    + intros (k & Hk & _). discriminate Hk.
  - intros calls. apply serve_unconfigured, Hflag.
Qed.

(** X8 on a process started with [FAL_KEY=]. *)
Lemma empty_key_is_missing_witness :
  serve MoreExamples.empty_key
    [(GenerateSync, Examples.test_args); (QueueStatusTool, Examples.status_args)]
    (startup MoreExamples.empty_key) =
    (Ok [not_configured; not_configured], startup MoreExamples.empty_key).
Proof.
  destruct (empty_key_is_missing MoreExamples.empty_key eq_refl)
    as (_ & _ & Hserve).
  exact (Hserve [(GenerateSync, Examples.test_args);
                 (QueueStatusTool, Examples.status_args)]).
Defined.

(** X9: when the gateway call of a configured handler throws, the handler
    returns the error-flagged response made of its headline and, for an
    [Error], the failure's message; the only effect is the recorded
    gateway call: no download is attempted and no file is touched. *)
Theorem gateway_failure_response (w : World) (t : Tool)
    (args : gmap string jsval) (s : State) (e : jserr) :
  falConfigured s = true ->
  gateway_failure w (gateway_call t args) = Some e ->
  handler w t args s =
    (Ok (error_response (failure_headline t) e),
     emit (EvGateway (gateway_call t args)) s) /\
  isError (error_response (failure_headline t) e) = true /\
  (forall v, e = JsOther v ->
     text (error_response (failure_headline t) e) = failure_headline t) /\
  (forall m, e = JsError m ->
     text (error_response (failure_headline t) e) =
       failure_headline t +:+ " Error: " +:+ m).
Proof.
  intros Hconf Hfail. split; [|split; [reflexivity|split; intros ? ->; reflexivity]].
  destruct t; cbn [handler gateway_call gateway_failure failure_headline] in *;
    unfold minimax_generate, minimax_generate_queue, minimax_queue_status,
      minimax_queue_result, bind at 1, get_state;
    cbv beta iota; rewrite Hconf; cbn [negb]; cbv beta iota;
    unfold try_catch, bind, modify, await.
  - destruct (fal_subscribe w (generate_input args)); [discriminate Hfail|].
    injection Hfail as ->. reflexivity.
  - destruct (fal_queue_submit w _ _); [discriminate Hfail|].
    injection Hfail as ->. reflexivity.
  - destruct (fal_queue_status w _ _); [discriminate Hfail|].
    injection Hfail as ->. reflexivity.
  - destruct (fal_queue_result w _); [discriminate Hfail|].
    injection Hfail as ->. reflexivity.
Qed.

(** X9 on a gateway that rejects with a value that is not an [Error]. *)
Lemma gateway_failure_response_witness :
  exists s',
    minimax_queue_result MoreExamples.gateway_down Examples.status_args
      (startup MoreExamples.gateway_down) =
      (Ok {| text := "Failed to get queue result."; isError := true |}, s') /\
    files s' = ∅ /\ download_attempts (trace s') = [].
Proof.
  destruct (gateway_failure_response MoreExamples.gateway_down QueueResultTool
              Examples.status_args (startup MoreExamples.gateway_down)
              _ eq_refl eq_refl) as (Hrun & _).
  eexists. split; [exact Hrun|]. split; reflexivity.
Defined.

(** X10: [minimax_generate_queue] and [minimax_queue_status] only talk to
    the gateway: a configured call records exactly one gateway call and
    changes nothing else, so nothing is downloaded and no file or
    directory is touched. The submit call gets the arguments without
    [webhook_url] as its input and the webhook beside it; the status call
    gets the request id and [logs], which is [true] unless given. *)
Theorem queue_tools_only_call_gateway (w : World) (t : Tool)
    (args : gmap string jsval) (s : State) :
  falConfigured s = true ->
  t = GenerateQueue \/ t = QueueStatusTool ->
  (exists r,
     handler w t args s = (Ok r, emit (EvGateway (gateway_call t args)) s)) /\
  (forall k, k <> "webhook_url" ->
     delete "webhook_url" args !! k = args !! k) /\
  delete "webhook_url" args !! "webhook_url" = None /\
  (args !! "logs" = None ->
   gateway_call QueueStatusTool args =
     QueueStatusCall MODEL (args !! "request_id") (Some (JBool true))).
Proof.
  intros Hconf Ht. split; [|split; [|split]].
  - destruct Ht as [-> | ->]; cbn [handler gateway_call];
      unfold minimax_generate_queue, minimax_queue_status, bind at 1, get_state;
      cbv beta iota; rewrite Hconf; cbn [negb]; cbv beta iota;
      unfold try_catch, bind, modify, await.
    + destruct (fal_queue_submit w _ _); eexists; reflexivity.
    + destruct (fal_queue_status w _ _); eexists; reflexivity.
  - intros k Hk. apply lookup_delete_ne. congruence.
  - apply lookup_delete_eq.
  - intros Hlogs. unfold gateway_call, prop_or. rewrite Hlogs. reflexivity.
Qed.

(** X10 on a submission with a webhook. *)
Lemma queue_tools_only_call_gateway_witness :
  exists r,
    minimax_generate_queue Examples.configured MoreExamples.hook_args
      (startup Examples.configured) =
      (Ok r,
       emit (EvGateway
               (QueueSubmit MODEL (delete "webhook_url" MoreExamples.hook_args)
                  (Some (JStr "https://hook.example"))))
         (startup Examples.configured)).
Proof.
  destruct (queue_tools_only_call_gateway Examples.configured GenerateQueue
              MoreExamples.hook_args (startup Examples.configured) eq_refl
              (or_introl eq_refl)) as [Hrun _].
  exact Hrun.
Defined.

(** X11: [minimax_generate] does not check its prompt before calling the
    gateway. With a prompt that is missing or not a string the gateway is
    called all the same; if its result holds at least one image, naming
    the first file throws and the call ends in the error-flagged response
    quoting that [TypeError], with no download attempted; if it holds no
    image, the call succeeds with an empty report. *)
Theorem generate_without_string_prompt (w : World)
    (args : gmap string jsval) (s : State) (result : Result) :
  falConfigured s = true ->
  (forall p, args !! "prompt" <> Some (JStr p)) ->
  fal_subscribe w (generate_input args) = Resolved result ->
  let s0 := emit (EvGateway (Subscribe MODEL (generate_input args))) s in
  match images (data result) with
  | [] => minimax_generate w args s = (Ok (generate_response args result []), s0)
  | _ :: _ =>
      exists msg,
        includes "toLowerCase" msg = true /\
        minimax_generate w args s =
          (Ok (error_response (failure_headline GenerateSync) (JsError msg)), s0)
  end.
Proof.
  intros Hconf Hprompt Hgw s0.
  assert (Hrun : minimax_generate w args s =
            match download_loop w (args !! "prompt") (seed (data result))
                    (images (data result)) 0 [] s0 with
            | (Ok ds, s1) => (Ok (generate_response args result ds), s1)
            | (Throw e, s1) =>
                (Ok (error_response (failure_headline GenerateSync) e), s1)
            | (Uncaught e, s1) => (Uncaught e, s1)
            | (Pending, s1) => (Pending, s1)
            end).
  { unfold minimax_generate, bind at 1, get_state. cbv beta iota.
    rewrite Hconf. cbn [negb]. cbv beta iota.
    unfold try_catch, bind at 1, modify. cbv beta iota.
    unfold bind at 1, await. rewrite Hgw. fold s0. unfold bind.
    destruct (download_loop _ _ _ _ _ _ _) as [[ds|e|e|] s1]; reflexivity. }
  rewrite Hrun. destruct (images (data result)) as [|image rest].
  - reflexivity.
  - destruct (download_loop_non_string w (args !! "prompt")
                (seed (data result)) image rest 0 [] s0 Hprompt)
      as (msg & Hmsg & Hloop).
    exists msg. split; [exact Hmsg|]. rewrite Hloop. reflexivity.
Qed.

(** X11 on a call without prompt. *)
Lemma generate_without_string_prompt_witness :
  exists msg,
    includes "toLowerCase" msg = true /\
    minimax_generate Examples.configured MoreExamples.no_prompt
      (startup Examples.configured) =
      (Ok (error_response (failure_headline GenerateSync) (JsError msg)),
       emit (EvGateway (Subscribe MODEL (generate_input MoreExamples.no_prompt)))
         (startup Examples.configured)).
Proof.
  apply (generate_without_string_prompt Examples.configured
           MoreExamples.no_prompt (startup Examples.configured)
           (Examples.two_images None) eq_refl).
  - intros p. discriminate.
  - reflexivity.
Defined.

(** X12: [minimax_queue_result] names its files after the key
    [queue_result_<request id>], which is always a string: whatever the
    arguments, once the gateway returns a result with [n] images and every
    download of the call settles (resolves or rejects), the call succeeds
    with [n] entries in order, each with its URL, its ordinal and a file
    name generated from that key, and every URL is attempted. *)
Theorem queue_result_materializes (w : World) (args : gmap string jsval)
    (s : State) (result : Result) :
  falConfigured s = true ->
  fal_queue_result w (args !! "request_id") = Resolved result ->
  downloads_settle w (downloads s) (images (data result)) = true ->
  let imgs := images (data result) in
  let key := "queue_result_" +:+ ToString (args !! "request_id") in
  exists (ds : list Downloaded) (s' : State),
    minimax_queue_result w args s =
      (Ok (success (queue_result_report (args !! "request_id") (data result) ds)),
       s') /\
    length ds = length imgs /\
    (forall (i : nat) (image : Image),
       imgs !! i = Some image ->
       exists d, ds !! i = Some d /\
         d_url d = img_url image /\
         index d = (Z.of_nat i + 1)%Z /\
         filename d =
           generateImageFilename (now w (clock_reads s + i)) key
             (Z.of_nat i + 1) (seed (data result))) /\
    download_attempts (trace s') =
      download_attempts (trace s) ++ map img_url imgs.
Proof.
  intros Hconf Hgw Hsettle imgs key.
  set (s0 := emit (EvGateway (QueueResult MODEL (args !! "request_id"))) s).
  destruct (download_loop_spec w key (seed (data result)) imgs 0 [] s0 Hsettle)
    as (s' & Hloop & _ & _ & Ha).
  eexists _, s'. split; [|split; [apply entries_length|split]].
  - unfold minimax_queue_result, bind at 1, get_state. cbv beta iota.
    rewrite Hconf. cbn [negb]. cbv beta iota.
    unfold try_catch, bind at 1, modify. cbv beta iota.
    unfold bind at 1, await. rewrite Hgw. fold s0. unfold bind.
    fold imgs key. rewrite Hloop. reflexivity.
  - intros i image Hi. eexists. split; [apply entries_lookup, Hi|].
    unfold entry. cbn [d_url index filename mkDownloaded].
    repeat split; reflexivity.
  - rewrite Ha. unfold s0. cbn [trace emit]. rewrite download_attempts_app.
    cbn. rewrite app_nil_r. reflexivity.
Qed.

(** X12 on a call without request id: the key is [queue_result_undefined]. *)
Lemma queue_result_materializes_witness :
  exists (ds : list Downloaded) (s' : State),
    minimax_queue_result Examples.configured ∅ (startup Examples.configured) =
      (Ok (success (queue_result_report None (data (Examples.two_images None)) ds)),
       s') /\
    length ds = 2%nat.
Proof.
  destruct (queue_result_materializes Examples.configured ∅
              (startup Examples.configured) (Examples.two_images None)
              eq_refl eq_refl eq_refl) as (ds & s' & Hrun & Hlen & _).
  exists ds, s'. split; [exact Hrun | exact Hlen].
Defined.

Lemma includes_trans (a b c : string) :
  includes a b = true -> includes b c = true -> includes a c = true.
Proof.
  intros Hab Hbc.
  apply includes_spec in Hab as (p1 & q1 & ->).
  apply includes_spec in Hbc as (p2 & q2 & ->).
  apply includes_spec. exists (p2 +:+ p1), (q1 +:+ q2).
  rewrite !append_assoc. reflexivity.
Qed.









Lemma queue_status_head (rid : option jsval) (st : QueueStatus) :
  exists tail,
    queue_status_report rid st =
      template ["Queue Status for Request ID: "; ToString rid; nl; nl;
                "Status: "; status st] +:+ tail.
Proof.
  unfold queue_status_report. set (head := template _).
  destruct (response_url st) as [u|]; [destruct (truthy_str _)|];
    (destruct (logs st) as [entries|]; [destruct (0 <? length entries)%nat|]);
    rewrite ?append_assoc; eexists;
    first [reflexivity | symmetry; apply append_nil_r].
Qed.

(** X15: a successful [minimax_queue_status] response shows the status
    the gateway reported and one line [[timestamp] message] for every log
    entry it returned; without logs (none, or an empty list) and without
    response URL (none, or an empty string) the text is the two-line head
    and nothing more. *)
Theorem queue_status_report_shape (w : World) (args : gmap string jsval)
    (s : State) (st : QueueStatus) :
  falConfigured s = true ->
  fal_queue_status w (args !! "request_id") (prop_or args "logs" (JBool true)) =
    Resolved st ->
  exists r s',
    minimax_queue_status w args s = (Ok r, s') /\
    isError r = false /\
    includes ("Status: " +:+ status st) (text r) = true /\
    (forall entries e,
       logs st = Some entries -> In e entries ->
       includes ("[" +:+ log_timestamp e +:+ "] " +:+ log_message e) (text r) =
         true) /\
    ((logs st = None \/ logs st = Some []) ->
     (response_url st = None \/ response_url st = Some "") ->
     text r =
       "Queue Status for Request ID: " +:+ ToString (args !! "request_id") +:+
       nl +:+ nl +:+ "Status: " +:+ status st).
Proof.
  intros Hconf Hgw.
  assert (Hrun : minimax_queue_status w args s =
            (Ok (success (queue_status_report (args !! "request_id") st)),
             emit (EvGateway (gateway_call QueueStatusTool args)) s)).
  { unfold minimax_queue_status, bind at 1, get_state. cbv beta iota.
    rewrite Hconf. cbn [negb]. cbv beta iota.
    unfold try_catch, bind, modify, await. rewrite Hgw. reflexivity. }
  eexists _, _. split; [exact Hrun|]. split; [reflexivity|].
  cbn [text success]. split; [|split].
  - destruct (queue_status_head (args !! "request_id") st) as [tail ->].
    apply includes_app_l.
    pose proof (includes_segment
                  ["Queue Status for Request ID: "; ToString (args !! "request_id");
                   nl; nl] ["Status: "; status st] []) as H.
    cbn [template app] in H. rewrite !append_nil_r in H.
    cbn [template]. rewrite append_nil_r. exact H.
  - intros entries e Hlogs Hin. unfold queue_status_report. rewrite Hlogs.
    destruct entries as [|e0 rest]; [destruct Hin|].
    cbn [length Nat.ltb Nat.leb]. apply includes_app_r.
    apply (includes_part (join nl (map log_line (e0 :: rest))));
      [cbn; tauto|].
    apply (includes_trans _ (log_line e)).
    + unfold log_line. cbn [template]. rewrite append_nil_r.
      apply includes_refl.
    + apply includes_join, in_map, Hin.
  - intros Hlogs Hurl. unfold queue_status_report.
    cbn [template]. rewrite append_nil_r.
    destruct Hurl as [-> | ->], Hlogs as [-> | ->]; reflexivity.
Qed.

(** X15 on a status with two log lines. *)
Lemma queue_status_report_shape_witness :
  exists r s',
    minimax_queue_status
      (Examples.world (Some "key") Examples.all_succeed None
         (Resolved MoreExamples.two_logs))
      Examples.status_args (startup Examples.configured) = (Ok r, s') /\
    includes "[t2] running" (text r) = true.
Proof.
  destruct (queue_status_report_shape
              (Examples.world (Some "key") Examples.all_succeed None
                 (Resolved MoreExamples.two_logs))
              Examples.status_args (startup Examples.configured)
              MoreExamples.two_logs eq_refl eq_refl)
    as (r & s' & Hrun & _ & _ & Hlog & _).
  exists r, s'. split; [exact Hrun|].
  apply (Hlog _ {| log_timestamp := "t2"; log_message := "running" |} eq_refl).
  right. left. reflexivity.
Defined.

Lemma minimax_generate_state (w : World) (args : gmap string jsval)
    (s : State) :
  falConfigured s = true ->
  let s0 := emit (EvGateway (Subscribe MODEL (generate_input args))) s in
  (minimax_generate w args s).2 =
    match fal_subscribe w (generate_input args) with
    | Resolved result =>
        (download_loop w (args !! "prompt") (seed (data result))
           (images (data result)) 0 [] s0).2
    | Rejected _ => s0
    end.
Proof.
  intros Hconf s0.
  unfold minimax_generate, bind at 1, get_state. cbv beta iota.
  rewrite Hconf. cbn [negb]. cbv beta iota.
  unfold try_catch, bind at 1, modify. cbv beta iota.
  unfold bind at 1, await. fold s0.
  destruct (fal_subscribe w (generate_input args)) as [result|e];
    [|reflexivity].
  unfold bind.
  destruct (download_loop _ _ _ _ _ _ _) as [[ds|e|e|] s1]; reflexivity.
Qed.

(** X16: whatever the arguments, a configured [minimax_generate] call
    makes exactly one gateway call. Its input holds the prompt and the
    optimizer flag as given (absent when not given), the aspect ratio,
    the image count and the sync flag as given or else ["1:1"], 1 and
    [true], and no other property: unknown arguments are dropped. *)
Theorem generate_input_defaults (w : World) (args : gmap string jsval)
    (s : State) :
  falConfigured s = true ->
  exists input,
    gateway_calls (trace (minimax_generate w args s).2) =
      gateway_calls (trace s) ++ [Subscribe MODEL input] /\
    input !! "prompt" = args !! "prompt" /\
    input !! "prompt_optimizer" = args !! "prompt_optimizer" /\
    input !! "aspect_ratio" = Some (default (JStr "1:1") (args !! "aspect_ratio")) /\
    input !! "num_images" = Some (default (JNum 1) (args !! "num_images")) /\
    input !! "sync_mode" = Some (default (JBool true) (args !! "sync_mode")) /\
    (forall k,
       ~ In k ["prompt"; "prompt_optimizer"; "aspect_ratio"; "num_images";
               "sync_mode"] ->
       input !! k = None).
Proof.
  intros Hconf. exists (generate_input args). split.
  - rewrite minimax_generate_state by exact Hconf.
    assert (H0 : gateway_calls
                   (trace (emit (EvGateway (Subscribe MODEL (generate_input args))) s)) =
                 gateway_calls (trace s) ++ [Subscribe MODEL (generate_input args)]).
    { cbn [trace emit]. rewrite gateway_calls_app. reflexivity. }
    destruct (fal_subscribe w (generate_input args)) as [result|e];
      [|exact H0].
    rewrite <- H0.
    apply (download_loop_invariant w
             (fun a b => gateway_calls (trace b) = gateway_calls (trace a))).
    + reflexivity.
    + intros a b c Hab Hbc. congruence.
    + reflexivity.
    + intros url fname a.
      destruct (downloadImage_spec w url fname a)
        as (s' & Hrun & _ & _ & _ & Hg & _).
      rewrite Hrun. exact Hg.
  - unfold generate_input, prop_or.
    destruct (args !! "prompt") as [p|], (args !! "prompt_optimizer") as [o|];
      cbn [set_prop];
      (repeat split;
       [ try (rewrite !lookup_insert_ne by discriminate);
         first [apply lookup_insert_eq | apply lookup_empty] .. | ]);
      intros k Hk;
      rewrite !lookup_insert_ne by (intros <-; apply Hk; cbn; tauto);
      apply lookup_empty.
Qed.

(** X16 on a call that gives only a prompt and an aspect ratio. *)
Lemma generate_input_defaults_witness :
  exists input,
    gateway_calls
      (trace (minimax_generate Examples.configured Examples.test_args
                (startup Examples.configured)).2) = [Subscribe MODEL input] /\
    input !! "num_images" = Some (JNum 1) /\
    input !! "aspect_ratio" = Some (JStr "16:9").
Proof.
  destruct (generate_input_defaults Examples.configured Examples.test_args
              (startup Examples.configured) eq_refl)
    as (input & Hcalls & _ & _ & Har & Hnum & _).
  exists input. split; [exact Hcalls|]. split; [exact Hnum | exact Har].
Defined.

End HandlerExtras.

(** ** More on file names *)

Module FilenameExtras.
Import Chars JsString Filename Js Observe.
Import StringFacts FilenameProps.

Lemma underscore_only (c : ascii) : is_underscore c = true -> c = underscore.
Proof. by_cases_on_char c. Qed.

Lemma kept_not_underscore (c : ascii) :
  negb (not_alnum_space c) = true -> is_underscore c = false.
Proof. by_cases_on_char c. Qed.

Lemma lower_twice (c : ascii) : to_lower_char (to_lower_char c) = to_lower_char c.
Proof. by_cases_on_char c. Qed.

Lemma punctuation_is_stripped (c : ascii) :
  is_ascii_punctuation c = true -> not_alnum_space (to_lower_char c) = true.
Proof. by_cases_on_char c. Qed.

Lemma safe_not_slash (c : ascii) : is_safe c = true -> negb (is_slash c) = true.
Proof. by_cases_on_char c. Qed.

Lemma double_underscore_cons (c : ascii) (s : string) :
  includes "__" (String c s) =
    (is_underscore c && String.prefix "_" s) || includes "__" s.
Proof.
  rewrite includes_cons. f_equal.
  change "__" with (String underscore "_"). rewrite prefix_cons.
  destruct (ascii_dec underscore c) as [<-|Hne]; [reflexivity|].
  destruct (is_underscore c) eqn:E; [|reflexivity].
  destruct Hne. symmetry. apply underscore_only, E.
Qed.

(** Each whitespace run of a stripped string becomes one underscore, and
    no two underscores meet. *)
Lemma replace_runs_single (t : string) :
  all_chars (fun c => negb (not_alnum_space c)) t = true ->
  includes "__" (replace_runs is_space "_" false t) = false /\
  includes "__" (replace_runs is_space "_" true t) = false /\
  String.prefix "_" (replace_runs is_space "_" true t) = false.
Proof.
  induction t as [|c t IH]; intros H; [repeat split; reflexivity|].
  cbn [all_chars] in H. apply andb_true_iff in H as [Hc Ht].
  destruct (IH Ht) as (Hf & Hr & Hp). cbn [replace_runs].
  destruct (is_space c) eqn:E.
  - rewrite append_cons, append_nil_l.
    change (String "_" (replace_runs is_space "_" true t))
      with (String underscore (replace_runs is_space "_" true t)).
    rewrite double_underscore_cons, Hp, Hr. repeat split; reflexivity.
  - rewrite double_underscore_cons, underscore_prefix,
      (kept_not_underscore c Hc), Hf.
    repeat split; reflexivity.
Qed.

Lemma substring_0_split (n : nat) (s : string) :
  exists tail, s = substring 0 n s +:+ tail.
Proof.
  revert s. induction n as [|n IH]; intros [|c s].
  - exists "". reflexivity.
  - exists (String c s). reflexivity.
  - exists "". reflexivity.
  - destruct (IH s) as [tail E]. exists tail. cbn [substring].
    rewrite append_cons, <- E. reflexivity.
Qed.

(** X17: a sanitized prompt never holds two underscores in a row:
    underscores typed in the prompt are stripped, and each run of
    whitespace left after stripping becomes a single underscore. *)
Theorem safePrompt_no_double_underscore (prompt : string) :
  includes "__" (safePrompt prompt) = false.
Proof.
  unfold safePrompt.
  set (u := replace_runs is_space "_" false _).
  assert (Hu : includes "__" u = false).
  { apply replace_runs_single. rewrite replace_each_empty.
    apply all_chars_keep. }
  destruct (substring_0_split 50 u) as [tail E].
  apply not_true_is_false. intros H.
  apply (includes_app_l _ _ tail) in H. rewrite <- E, Hu in H. discriminate H.
Qed.

Lemma toLowerCase_idempotent (s : string) :
  toLowerCase (toLowerCase s) = toLowerCase s.
Proof.
  induction s as [|c s IH]; [reflexivity|]. cbn [toLowerCase].
  rewrite lower_twice, IH. reflexivity.
Qed.

Lemma strip_before_lowering (s : string) :
  replace_each not_alnum_space ""
    (toLowerCase (keep (fun c => negb (is_ascii_punctuation c)) s)) =
  replace_each not_alnum_space "" (toLowerCase s).
Proof.
  induction s as [|c s IH]; [reflexivity|].
  cbn [keep toLowerCase replace_each].
  destruct (is_ascii_punctuation c) eqn:E; cbn [negb].
  - rewrite (punctuation_is_stripped c E), append_nil_l. exact IH.
  - cbn [toLowerCase replace_each]. rewrite IH. reflexivity.
Qed.

(** X18: the sanitized prompt ignores letter case and ASCII punctuation:
    a prompt, its lowercase form and the prompt without its ASCII
    punctuation characters all give the same result, so such prompts
    share their file-name stem. *)
Theorem safePrompt_ignores_case_and_punctuation (prompt : string) :
  safePrompt (toLowerCase prompt) = safePrompt prompt /\
  safePrompt (keep (fun c => negb (is_ascii_punctuation c)) prompt) =
    safePrompt prompt.
Proof.
  unfold safePrompt. split.
  - rewrite toLowerCase_idempotent. reflexivity.
  - rewrite strip_before_lowering. reflexivity.
Qed.

(** X19: whatever the request id, the clock, the ordinal and the seed, a
    file name generated from the key [queue_result_<id>] starts with
    [minimax_queueresult]: the underscores of the key are stripped like any
    other punctuation. *)
Theorem queue_result_filename_prefix (now rid : string) (index : Z)
    (seed : option Z) :
  String.prefix "minimax_queueresult"
    (generateImageFilename now ("queue_result_" +:+ rid) index seed) = true.
Proof.
  unfold generateImageFilename, safePrompt. cbn [template].
  rewrite !append_cons, append_nil_l.
  cbn [toLowerCase].
  change (to_lower_char "q") with "q"%char.
  change (to_lower_char "u") with "u"%char.
  change (to_lower_char "e") with "e"%char.
  change (to_lower_char "_") with "_"%char.
  change (to_lower_char "r") with "r"%char.
  change (to_lower_char "s") with "s"%char.
  change (to_lower_char "l") with "l"%char.
  change (to_lower_char "t") with "t"%char.
  cbn [replace_each].
  repeat match goal with
         | |- context [not_alnum_space ?c] =>
             let b := eval vm_compute in (not_alnum_space c) in
             change (not_alnum_space c) with b; cbv iota
         end.
  rewrite !append_nil_l. cbn [replace_runs].
  repeat match goal with
         | |- context [is_space ?c] =>
             let b := eval vm_compute in (is_space c) in
             change (is_space c) with b; cbv iota
         end.
  cbn [substring]. rewrite !append_cons.
  repeat (rewrite prefix_cons;
          destruct (ascii_dec _ _) as [_|Hne]; [|destruct Hne; reflexivity]).
  apply prefix_nil.
Qed.

Lemma append_inj_r (a b c : string) : a +:+ c = b +:+ c -> a = b.
Proof.
  revert b. induction a as [|x a IH]; intros [|y b] H.
  - reflexivity.
  - apply (f_equal String.length) in H. rewrite append_nil_l in H.
    rewrite append_cons in H. cbn [String.length] in H.
    rewrite length_append in H. lia.
  - apply (f_equal String.length) in H. rewrite append_nil_l in H.
    rewrite append_cons in H. cbn [String.length] in H.
    rewrite length_append in H. lia.
  - rewrite !append_cons in H. injection H as -> H. f_equal. apply IH, H.
Qed.

(** X20: with the same clock reading, prompt and seed, two different
    ordinals never give the same file name: the images of one batch
    cannot overwrite each other even when generated within the same
    millisecond. *)
Theorem filename_distinct_ordinals (now prompt : string) (seed : option Z)
    (i j : Z) :
  i <> j ->
  generateImageFilename now prompt i seed <>
  generateImageFilename now prompt j seed.
Proof.
  intros Hij H. apply Hij. unfold generateImageFilename in H.
  cbn [template] in H.
  do 4 apply String.app_inj in H.
  apply append_inj_r in H. apply (inj pretty) in H. exact H.
Qed.

(** X20 on the ordinals 1 and 2. *)
Lemma filename_distinct_ordinals_witness :
  generateImageFilename "2025-01-02T03:04:05.678Z" "test" 1 None <>
  generateImageFilename "2025-01-02T03:04:05.678Z" "test" 2 None.
Proof.
  apply (filename_distinct_ordinals "2025-01-02T03:04:05.678Z" "test" None 1 2).
  discriminate.
Defined.


Lemma all_chars_append (p : ascii -> bool) (a b : string) :
  all_chars p (a +:+ b) = all_chars p a && all_chars p b.
Proof.
  induction a as [|c a IH]; [reflexivity|].
  rewrite append_cons. cbn [all_chars]. rewrite IH. apply andb_assoc.
Qed.

Lemma digit_not_slash (x : N) : negb (is_slash (pretty_N_char x)) = true.
Proof.
  unfold pretty_N_char. repeat case_match; reflexivity.
Qed.

Lemma pretty_N_go_not_slash (x : N) :
  forall s,
    all_chars (fun c => negb (is_slash c)) s = true ->
    all_chars (fun c => negb (is_slash c)) (pretty_N_go x s) = true.
Proof.
  induction (N.lt_wf_0 x) as [x _ IH]. intros s Hs.
  destruct (N.eq_dec x 0%N) as [->|Hx]; [rewrite pretty_N_go_0; exact Hs|].
  rewrite pretty_N_go_step by lia. apply IH.
  - apply N.div_lt; lia.
  - cbn [all_chars]. rewrite digit_not_slash. exact Hs.
Qed.

Lemma pretty_Z_not_slash (z : Z) :
  all_chars (fun c => negb (is_slash c)) (pretty z) = true.
Proof.
  assert (HN : forall n : N,
             all_chars (fun c => negb (is_slash c)) (pretty n) = true).
  { intros n. unfold pretty, pretty_N. destruct (decide (n = 0%N)); [reflexivity|].
    apply pretty_N_go_not_slash. reflexivity. }
  destruct z as [|q|q]; [reflexivity|apply (HN (Npos q))|].
  change (pretty (Zneg q)) with ("-" +:+ pretty (Npos q)).
  rewrite all_chars_append, (HN (Npos q)). reflexivity.
Qed.

Lemma dashed_not_slash (now : string) :
  all_chars (fun c => negb (is_slash c)) now = true ->
  all_chars (fun c => negb (is_slash c))
    (replace_each is_colon_or_dot "-" now) = true.
Proof.
  induction now as [|c s IH]; intros H; [reflexivity|].
  cbn [all_chars] in H. apply andb_true_iff in H as [Hc Hs].
  cbn [replace_each]. destruct (is_colon_or_dot c).
  - rewrite append_cons, append_nil_l. cbn [all_chars]. rewrite (IH Hs).
    reflexivity.
  - cbn [all_chars]. rewrite Hc. exact (IH Hs).
Qed.

(** X21: neither the prompt nor the seed nor the ordinal can bring a path
    separator into a file name: when the clock string holds no [/], the
    generated name holds none, so the file stays inside the [images]
    directory whatever the prompt says. *)
Theorem filename_has_no_slash (now prompt : string) (index : Z)
    (seed : option Z) :
  all_chars (fun c => negb (is_slash c)) now = true ->
  all_chars (fun c => negb (is_slash c))
    (generateImageFilename now prompt index seed) = true.
Proof.
  intros Hnow. unfold generateImageFilename. cbn [template].
  rewrite !all_chars_append.
  rewrite (all_chars_impl _ _ _ safe_not_slash (safePrompt_safe prompt)).
  rewrite pretty_Z_not_slash, (dashed_not_slash now Hnow).
  assert (Hseed : all_chars (fun c => negb (is_slash c)) (seedStr seed) = true).
  { destruct seed as [n|]; [|reflexivity]. cbn [seedStr].
    destruct (n =? 0)%Z; [reflexivity|].
    rewrite all_chars_append, pretty_Z_not_slash. reflexivity. }
  rewrite Hseed. reflexivity.
Qed.

(** X21 on a prompt that tries to climb out of the directory. *)
Lemma filename_has_no_slash_witness :
  all_chars (fun c => negb (is_slash c))
    (generateImageFilename "2025-01-02T03:04:05.678Z" "../../etc/passwd" 1
       (Some 7%Z)) = true.
Proof.
  apply (filename_has_no_slash "2025-01-02T03:04:05.678Z" "../../etc/passwd").
  reflexivity.
Defined.

End FilenameExtras.
